(** * Row partitioning and row dispatch of the threaded convolution filter

    A shallow embedding of [convolution.cc]: the work-partitioning function
    [GetMatrixWork], the per-thread dispatch [CalculateFilter], the sequential
    loop of [main], the argument check [ProcessArguments] and the dimension
    inference [GetMatrixDimension].

    C++ [int] is a 32-bit two's complement integer, modelled as a [Z] inside
    [Int.min_signed .. Int.max_signed]; every arithmetic operation of the
    source is followed by [Int.wrap]. *)

From Stdlib Require Import ZArith List Bool Lia.
From Stdlib Require Import Strings.String Strings.Ascii DecimalString.
From Stdlib Require Import Floats.SpecFloat.
Import ListNotations.

Local Open Scope string_scope.
Local Open Scope Z_scope.

(* ================================================================== *)
(** ** Machine integers *)

Module Int.

Definition modulus : Z := 2 ^ 32.
Definition min_signed : Z := - 2 ^ 31.
Definition max_signed : Z := 2 ^ 31 - 1.

(** The value an [int] holds after an operation whose exact result is [z]. *)
Definition wrap (z : Z) : Z := (z + 2 ^ 31) mod modulus - 2 ^ 31.

Definition in_range (z : Z) : Prop := min_signed <= z <= max_signed.

Definition add (a b : Z) : Z := wrap (a + b).
Definition sub (a b : Z) : Z := wrap (a - b).
Definition mul (a b : Z) : Z := wrap (a * b).

End Int.

(* ================================================================== *)
(** ** Program state and effects *)

(** What the program can observe or change.  The program owns one matrix,
    the one behind the pointer [int** matrix]; [loads] is the log of the
    cells [matrix[row][i]] read so far, oldest first. *)
Record world : Type := mkWorld {
  matrix_mem : list (list Z);
  stdout : string;
  loads : list (Z * Z)
}.

(** A call returns, or the process ends in [exit (status)], or it runs into
    undefined behaviour (a read outside the matrix, a division by zero, a
    conversion of a value that [int] cannot hold). *)
Inductive outcome (A : Type) : Type :=
| Returned (a : A) (w : world)
| Exited (status : Z) (w : world)
| Trapped (w : world).

Arguments Returned {A} a w.
Arguments Exited {A} status w.
Arguments Trapped {A} w.

Definition final_world {A : Type} (o : outcome A) : world :=
  match o with
  | Returned _ w => w
  | Exited _ w => w
  | Trapped w => w
  end.

Definition prog (A : Type) : Type := world -> outcome A.

Definition ret {A : Type} (a : A) : prog A := fun w => Returned a w.

Definition bind {A B : Type} (m : prog A) (k : A -> prog B) : prog B :=
  fun w =>
    match m w with
    | Returned a w' => k a w'
    | Exited status w' => Exited status w'
    | Trapped w' => Trapped w'
    end.

Notation "x <- m ;; k" := (bind m (fun x => k))
  (at level 61, m at next level, right associativity).
Notation "m ;; k" := (bind m (fun _ => k))
  (at level 61, right associativity).

(** [cout << s] and [printf] both append to the standard output. *)
Definition write (s : string) : prog unit :=
  fun w => Returned tt (mkWorld (matrix_mem w) (stdout w ++ s) (loads w)).

Definition exit {A : Type} (status : Z) : prog A := fun w => Exited status w.

Definition trap {A : Type} : prog A := fun w => Trapped w.

Definition cell (m : list (list Z)) (row i : Z) : option Z :=
  if (row <? 0) || (i <? 0) then None
  else match nth_error m (Z.to_nat row) with
       | Some r => nth_error r (Z.to_nat i)
       | None => None
       end.

(** The read [matrix[row][i]]. *)
Definition load (row i : Z) : prog Z :=
  fun w =>
    match cell (matrix_mem w) row i with
    | Some v => Returned v (mkWorld (matrix_mem w) (stdout w) (loads w ++ [(row, i)]%list)%list)
    | None => Trapped w
    end.

(** [for (int i = lo; i < hi; i++) body]: the body runs for
    [lo, lo + 1, ..., hi - 1] and not at all when [hi <= lo]. *)
Fixpoint for_steps (n : nat) (i : Z) (body : Z -> prog unit) : prog unit :=
  match n with
  | O => ret tt
  | S n' => body i ;; for_steps n' (i + 1) body
  end.

Definition for_range (lo hi : Z) (body : Z -> prog unit) : prog unit :=
  for_steps (Z.to_nat (hi - lo)) lo body.

Definition tab : string := String "009" EmptyString.
Definition endl : string := String "010" EmptyString.

(** Decimal text of an [int], as [cout << int] and [printf ("%d")] print it. *)
Definition show_int (z : Z) : string := NilZero.string_of_int (Z.to_int z).

(* ================================================================== *)
(** ** The C library's atoi and sqrt *)

Definition isspace (c : ascii) : bool :=
  let n := nat_of_ascii c in (n =? 32)%nat || ((9 <=? n)%nat && (n <=? 13)%nat).

Definition digit (c : ascii) : option Z :=
  let n := Z.of_nat (nat_of_ascii c) in
  if (48 <=? n) && (n <=? 57) then Some (n - 48) else None.

Fixpoint skip_spaces (s : string) : string :=
  match s with
  | String c r => if isspace c then skip_spaces r else s
  | EmptyString => s
  end.

Fixpoint digits_value (acc : Z) (s : string) : Z :=
  match s with
  | String c r =>
      match digit c with
      | Some d => digits_value (10 * acc + d) r
      | None => acc
      end
  | EmptyString => acc
  end.

(** [strtol (s, NULL, 10)]: leading white space, an optional sign, then the
    longest run of decimal digits; no digits give 0, and the value is clamped
    to the range of a 64-bit [long]. *)
Definition strtol (s : string) : Z :=
  let s := skip_spaces s in
  let v :=
    match s with
    | String "-" r => - digits_value 0 r
    | String "+" r => digits_value 0 r
    | _ => digits_value 0 s
    end in
  Z.max (- 2 ^ 63) (Z.min (2 ^ 63 - 1) v).

(** [atoi (s)] is [(int) strtol (s, NULL, 10)]. *)
Definition atoi (s : string) : Z := Int.wrap (strtol s).

(** Conversion of an [int] to [double] (IEEE 754 binary64). *)
Definition double_of_int (z : Z) : spec_float := binary_normalize 53 1024 z 0 false.

(** [sqrt] on [double], correctly rounded to nearest even. *)
Definition sqrt (x : spec_float) : spec_float := SFsqrt 53 1024 x.

(** Conversion of a [double] to [int]: the fractional part is discarded; a
    NaN, an infinity or a value outside the range of [int] has no result. *)
Definition int_of_double (x : spec_float) : option Z :=
  match x with
  | S754_zero _ => Some 0
  | S754_finite s m e =>
      let t := cond_Zopp s (Z.shiftl (Z.pos m) e) in
      if (Int.min_signed <=? t) && (t <=? Int.max_signed) then Some t else None
  | S754_infinity _ => None
  | S754_nan => None
  end.

(* ================================================================== *)
(** ** The functions of convolution.cc *)

Definition EXIT_FAILURE : Z := 1.

Definition PrettyPrintMatrix (matrixDim : Z) : prog unit :=
  for_range 0 matrixDim (fun i =>
    for_range 0 matrixDim (fun j =>
      v <- load i j ;;
      write (show_int v ++ tab)) ;;
    write endl).

(** [argv] holds the program name and the arguments; [argc] is its length.
    The result is the triple stored through [file], [dpth] and [nTh]. *)
Definition ProcessArguments (argv : list string) : prog (string * Z * Z) :=
  let argc := Z.of_nat (List.length argv) in
  let arg (n : nat) := nth n argv "" in
  if argc <? 4 then
    write ("[ERROR] Invalid number of arguments given." ++ endl) ;;
    write ("Usage:" ++ endl) ;;
    write (tab ++ "convolution [matrixFile] [filterDepth] [numThreads]" ++ endl) ;;
    exit EXIT_FAILURE
  else if (atoi (arg 2%nat) =? 0) || (atoi (arg 3%nat) =? 0) then
    write ("[ERROR] Invalid values given for depth or numThreads" ++ endl) ;;
    write ("Usage:" ++ endl) ;;
    write (tab ++ "convolution [matrixFile] [filterDepth] [numThreads]" ++ endl) ;;
    write ("Where filterDepth and numThreads are ints > 0" ++ endl) ;;
    exit EXIT_FAILURE
  else
    ret (arg 1%nat, atoi (arg 2%nat), atoi (arg 3%nat)).

(** A file as the program sees it: whether [fseek] to its end succeeds, the
    position [ftell] then reports (its size in bytes, or -1), and the rows
    that [get_row] of matrix.h reads from it. *)
Record file : Type := mkFile {
  seekable : bool;
  tell_end : Z;
  get_row : Z -> Z -> list Z
}.

(** The files that can be opened for reading, by name. *)
Definition filesystem : Type := string -> option file.

Definition GetMatrixDimension (fs : filesystem) (filenameStr : string) : prog Z :=
  match fs filenameStr with
  | None =>
      write ("[ERROR] Could not open file '" ++ filenameStr ++ "'" ++ endl) ;;
      exit 1
  | Some f =>
      if negb (seekable f) then
        write ("[ERROR] Could not get dimension for file '" ++ filenameStr ++ "'" ++ endl) ;;
        exit 1
      else
        let size := Int.wrap (tell_end f) in
        if size =? -1 then
          write ("[ERROR] Could not get dimension for file '" ++ filenameStr ++ "'" ++ endl) ;;
          exit 1
        else
          let dimension := Z.quot size 4 in
          match int_of_double (sqrt (double_of_int dimension)) with
          | Some d => ret d
          | None => trap
          end
  end.

(** Row [i] of the new matrix is what [get_row (fd, matDim, i + 1, ...)]
    leaves in its buffer. *)
Definition ReadMatrixFile (fs : filesystem) (filenameStr : string) (matDim : Z)
  : prog unit :=
  if matDim <? 0 then trap
  else
    write ("Reading matrix from file '" ++ filenameStr ++ "'" ++ endl) ;;
    match fs filenameStr with
    | None =>
        write ("Failed to read file descriptor for " ++ filenameStr ++ endl) ;;
        exit 1
    | Some f =>
        fun w =>
          let rows := map (fun i => get_row f matDim (Z.of_nat i + 1))
                          (seq 0 (Z.to_nat matDim)) in
          Returned tt (mkWorld rows (stdout w) (loads w))
    end.

Definition CleanupMatrix (matrixDim : Z) : prog unit :=
  fun w => Returned tt (mkWorld [] (stdout w) (loads w)).

(* ================================================================== *)
(** ** GetMatrixWork *)

(** [GetMatrixWork matrixDim numT tid] returns the pair written through
    [startP] and [endP].  The only operation that can trap is the division
    [matrixDim % numT] with [numT = 0]; it is the [None] result.  The quotient
    [matrixDim / numT] is an [int] already, so the conversion to [double],
    [floor] and the conversion back leave it unchanged. *)
Definition GetMatrixWork (matrixDim numT tid : Z) : option (Z * Z) :=
  let split :=
    if numT >=? matrixDim then Some (0, 1)
    else if numT =? 0 then None
    else Some (Z.rem matrixDim numT, Z.quot matrixDim numT) in
  match split with
  | None => None
  | Some (remainder, workload) =>
      let start := Int.mul workload tid in
      let end_ := Int.mul workload (Int.add tid 1) in
      let end_ := if tid =? Int.sub numT 1 then Int.add end_ remainder else end_ in
      if tid >=? matrixDim then Some (-1, -1) else Some (start, end_)
  end.

(** The test [start == -1 && end == -1] of [CalculateFilter]. *)
Definition no_work (r : Z * Z) : bool := (fst r =? -1) && (snd r =? -1).

(** Row [row] is visited by the loop [for (row = start; row < end; row++)]
    that [CalculateFilter] runs on the range [r]. *)
Definition in_work (r : Z * Z) (row : Z) : Prop :=
  no_work r = false /\ fst r <= row < snd r.

(** Row [row] belongs to the work of thread [tid]. *)
Definition thread_row (matrixDim numT tid row : Z) : Prop :=
  exists r, GetMatrixWork matrixDim numT tid = Some r /\ in_work r row.

Definition CalculateFilter (matrixDim numT tid : Z) : prog unit :=
  match GetMatrixWork matrixDim numT tid with
  | None => trap
  | Some (start, end_) =>
      if (start =? -1) && (end_ =? -1) then ret tt
      else
        write ("Thread " ++ show_int tid ++ " of " ++ show_int numT ++ endl) ;;
        for_range start end_ (fun row =>
          for_range 0 matrixDim (fun i =>
            v <- load row i ;;
            write (show_int v ++ tab)) ;;
          write endl)
  end.

(** The loop of [main] that hands every thread index to [CalculateFilter]. *)
Definition main_distribute (matrixDimension numThreads : Z) : prog unit :=
  for_range 0 numThreads (fun i => CalculateFilter matrixDimension numThreads i).

Definition main (fs : filesystem) (argv : list string) : prog Z :=
  args <- ProcessArguments argv ;;
  let '(filename, filterDepth, numThreads) := args in
  write (endl ++ "file: " ++ filename ++ " depth: " ++ show_int filterDepth
         ++ " threads: " ++ show_int numThreads ++ endl) ;;
  matrixDimension <- GetMatrixDimension fs filename ;;
  write ("Matrix dimension for '" ++ filename ++ "' was "
         ++ show_int matrixDimension ++ endl) ;;
  ReadMatrixFile fs filename matrixDimension ;;
  main_distribute matrixDimension numThreads ;;
  write ("Whole Matrix" ++ endl) ;;
  PrettyPrintMatrix matrixDimension ;;
  CleanupMatrix matrixDimension ;;
  ret 0.

(** The earlier revision of convolution.cc, which only checks its arguments:
    [ProcessArguments] returns a status instead of leaving the process. *)
Module ArgsOnly.

(** The status, and the triple stored through [file], [dpth] and [nTh]
    when the arguments pass the check. *)
Definition ProcessArguments (argv : list string)
  : prog (Z * option (string * Z * Z)) :=
  let argc := Z.of_nat (List.length argv) in
  let arg (n : nat) := nth n argv "" in
  if argc <? 4 then
    write ("[ERROR] Invalid number of arguments given." ++ endl) ;;
    write ("Usage:" ++ endl) ;;
    write (tab ++ "convolution [matrixFile] [filterDepth] [numThreads]" ++ endl) ;;
    ret (1, None)
  else if (atoi (arg 2%nat) =? 0) || (atoi (arg 3%nat) =? 0) then
    write ("[ERROR] Invalid values given for depth or numThreads" ++ endl) ;;
    write ("Usage:" ++ endl) ;;
    write (tab ++ "convolution [matrixFile] [filterDepth] [numThreads]" ++ endl) ;;
    write ("Where filterDepth and numThreads are ints > 0" ++ endl) ;;
    ret (1, None)
  else
    ret (0, Some (arg 1%nat, atoi (arg 2%nat), atoi (arg 3%nat))).

Definition main (argv : list string) : prog Z :=
  r <- ProcessArguments argv ;;
  match r with
  | (0, Some (filename, filterDepth, numThreads)) =>
      write ("file: " ++ filename ++ " depth: " ++ show_int filterDepth
             ++ " threads: ") ;;
      write (show_int numThreads ++ endl) ;;
      ret 0
  | _ =>
      write (endl ++ "Program exiting..." ++ endl) ;;
      ret 0
  end.

End ArgsOnly.

(** The revision between the two: [main] checks the arguments as the earlier
    revision does and then reports the dimension of the matrix file. *)
Module DimensionOnly.

Definition main (fs : filesystem) (argv : list string) : prog Z :=
  r <- ArgsOnly.ProcessArguments argv ;;
  match r with
  | (0, Some (filename, filterDepth, numThreads)) =>
      write ("file: " ++ filename ++ " depth: " ++ show_int filterDepth
             ++ " threads: ") ;;
      write (show_int numThreads ++ endl) ;;
      matrixDimension <- GetMatrixDimension fs filename ;;
      write ("Matrix dimension for '" ++ filename ++ "' was "
             ++ show_int matrixDimension ++ endl) ;;
      ret 0
  | _ =>
      write (endl ++ "Program exiting..." ++ endl) ;;
      ret 0
  end.

End DimensionOnly.

(** The revision that reads and prints the matrix but does not yet split it
    among threads. *)
Module PrintOnly.

Definition ReadMatrixFile (fs : filesystem) (filenameStr : string) (matDim : Z)
  : prog unit :=
  if matDim <? 0 then trap
  else
    write ("Reading matrix from file " ++ filenameStr ++ endl) ;;
    match fs filenameStr with
    | None =>
        write ("Failed to read file descriptor for " ++ filenameStr ++ endl) ;;
        exit 1
    | Some f =>
        fun w =>
          let rows := map (fun i => get_row f matDim (Z.of_nat i + 1))
                          (seq 0 (Z.to_nat matDim)) in
          Returned tt (mkWorld rows (stdout w) (loads w))
    end.

Definition main (fs : filesystem) (argv : list string) : prog Z :=
  args <- ProcessArguments argv ;;
  let '(filename, filterDepth, numThreads) := args in
  write ("file: " ++ filename ++ " depth: " ++ show_int filterDepth
         ++ " threads: " ++ show_int numThreads ++ endl) ;;
  matrixDimension <- GetMatrixDimension fs filename ;;
  write ("Matrix dimension for '" ++ filename ++ "' was "
         ++ show_int matrixDimension ++ endl) ;;
  ReadMatrixFile fs filename matrixDimension ;;
  PrettyPrintMatrix matrixDimension ;;
  CleanupMatrix matrixDimension ;;
  ret 0.

End PrintOnly.

(** Row boundary [k] of the partition of [matrixDim] rows among [numT]
    threads: the first row of thread [k] for [k < numT], and [matrixDim]
    for [k = numT]. *)
Definition boundary (matrixDim numT k : Z) : Z :=
  if numT <? matrixDim
  then (if k =? numT then matrixDim else matrixDim / numT * k)
  else Z.min k matrixDim.

(* ================================================================== *)
(** ** Vocabulary of the statements *)

(** The world [w] after [s] was printed and the cells [l] were read. *)
Definition emit (w : world) (s : string) (l : list (Z * Z)) : world :=
  mkWorld (matrix_mem w) (stdout w ++ s) (loads w ++ l)%list.

(** The [n] consecutive integers from [lo] on, ascending. *)
Fixpoint zrange (lo : Z) (n : nat) : list Z :=
  match n with
  | O => []
  | S n' => lo :: zrange (lo + 1) n'
  end.

(** A row as one output line: every value followed by a tab. *)
Fixpoint row_text (r : list Z) : string :=
  match r with
  | [] => ""
  | v :: r' => show_int v ++ tab ++ row_text r'
  end.

(** Rows as output lines, in list order, each closed by a newline. *)
Fixpoint rows_text (rows : list (list Z)) : string :=
  match rows with
  | [] => ""
  | r :: rows' => row_text r ++ endl ++ rows_text rows'
  end.

(** The cells of the given rows of a matrix of dimension [matrixDim], row
    after row, each row in column order [0 .. matrixDim - 1]. *)
Definition cells_of (matrixDim : Z) (rows : list Z) : list (Z * Z) :=
  flat_map (fun row => map (pair row) (zrange 0 (Z.to_nat matrixDim))) rows.

(** The rows [start .. end_ - 1] of the matrix [m]. *)
Definition rows_between (m : list (list Z)) (start end_ : Z) : list (list Z) :=
  firstn (Z.to_nat (end_ - start)) (skipn (Z.to_nat start) m).

(** [m] is a square matrix of dimension [matrixDim]. *)
Definition square (m : list (list Z)) (matrixDim : Z) : Prop :=
  Z.of_nat (List.length m) = matrixDim /\
  forall r, In r m -> Z.of_nat (List.length r) = matrixDim.

(** What thread [tid] prints: nothing when it has no row, else its banner
    and its rows. *)
Definition thread_text (m : list (list Z)) (matrixDim numT tid : Z) : string :=
  let start := boundary matrixDim numT tid in
  let end_ := boundary matrixDim numT (tid + 1) in
  if start <? end_
  then "Thread " ++ show_int tid ++ " of " ++ show_int numT ++ endl
       ++ rows_text (rows_between m start end_)
  else "".

(** What the threads [tids] print, one after the other. *)
Fixpoint threads_text (m : list (list Z)) (matrixDim numT : Z) (tids : list Z)
  : string :=
  match tids with
  | [] => ""
  | tid :: tids' =>
      thread_text m matrixDim numT tid ++ threads_text m matrixDim numT tids'
  end.

(** The call [p] leaves every cell of the matrix as it was. *)
Definition keeps_matrix {A : Type} (p : prog A) : Prop :=
  forall w, matrix_mem (final_world (p w)) = matrix_mem w.

(** What [ProcessArguments] prints when arguments are missing. *)
Definition missing_arguments_text : string :=
  "[ERROR] Invalid number of arguments given." ++ endl
  ++ "Usage:" ++ endl
  ++ tab ++ "convolution [matrixFile] [filterDepth] [numThreads]" ++ endl.

(** What [ProcessArguments] prints when [atoi] reads 0 for the depth or the
    thread count. *)
Definition invalid_values_text : string :=
  "[ERROR] Invalid values given for depth or numThreads" ++ endl
  ++ "Usage:" ++ endl
  ++ tab ++ "convolution [matrixFile] [filterDepth] [numThreads]" ++ endl
  ++ "Where filterDepth and numThreads are ints > 0" ++ endl.

(** The arguments pass the check of [ProcessArguments]. *)
Definition accepted (argv : list string) : Prop :=
  4 <= Z.of_nat (List.length argv) /\
  atoi (nth 2 argv "") <> 0 /\ atoi (nth 3 argv "") <> 0.

(** The rows of the matrix [m] that thread [tid] is given. *)
Definition thread_block (m : list (list Z)) (matrixDim numT tid : Z)
  : list (list Z) :=
  match GetMatrixWork matrixDim numT tid with
  | Some (start, end_) =>
      if no_work (start, end_) then [] else rows_between m start end_
  | None => []
  end.

(** The matrix that [ReadMatrixFile] builds from the file [f]. *)
Definition matrix_of_file (f : file) (matDim : Z) : list (list Z) :=
  map (fun i => get_row f matDim (Z.of_nat i + 1)) (seq 0 (Z.to_nat matDim)).

(* ================================================================== *)
(** ** Properties of the machine integers *)

Lemma wrap_in_range z : Int.in_range z -> Int.wrap z = z.
Proof.
  unfold Int.in_range, Int.wrap, Int.modulus, Int.min_signed, Int.max_signed.
  intros H. rewrite Z.mod_small; lia.
Qed.

Lemma wrap_congruent z : exists k, Int.wrap z = z - Int.modulus * k.
Proof.
  exists ((z + 2 ^ 31) / Int.modulus). unfold Int.wrap.
  rewrite Z.mod_eq by (unfold Int.modulus; lia). lia.
Qed.

Example GetMatrixWork_10_3 :
  map (GetMatrixWork 10 3) [0; 1; 2] = [Some (0, 3); Some (3, 6); Some (6, 10)].
Proof. reflexivity. Qed.

Example GetMatrixWork_4_6 :
  map (GetMatrixWork 4 6) [0; 1; 2; 3; 4; 5]
  = [Some (0, 1); Some (1, 2); Some (2, 3); Some (3, 4); Some (-1, -1); Some (-1, -1)].
Proof. reflexivity. Qed.

(* ================================================================== *)
(** ** Closed forms of GetMatrixWork *)

Section Partition.

Variables N T : Z.
Hypothesis N_pos : 1 <= N.
Hypothesis N_int : N <= Int.max_signed.
Hypothesis T_pos : 1 <= T.
Hypothesis T_int : T <= Int.max_signed.

Lemma workload_bounds :
  T < N -> 1 <= N / T /\ N / T * T <= N /\ N = N / T * T + N mod T /\ 0 <= N mod T < T.
Proof using All.
  intros H.
  pose proof (Z.div_mod N T ltac:(lia)) as E.
  pose proof (Z.mod_pos_bound N T ltac:(lia)) as B.
  assert (1 <= N / T) by (apply Z.div_le_lower_bound; lia).
  repeat split; try lia.
Qed.

Lemma dense_form tid :
  T < N -> 0 <= tid < T ->
  GetMatrixWork N T tid
  = Some (N / T * tid,
          if tid =? T - 1 then N / T * (tid + 1) + N mod T else N / T * (tid + 1)).
Proof using All.
  intros HT Htid. destruct (workload_bounds HT) as (Hw & Hle & Heq & Hr).
  unfold Int.max_signed in *.
  assert (Hmul : forall k, 0 <= k <= T -> 0 <= N / T * k <= N) by (intros; nia).
  unfold GetMatrixWork.
  replace (T >=? N) with false by lia.
  replace (T =? 0) with false by lia.
  rewrite Z.rem_mod_nonneg, Z.quot_div_nonneg by lia.
  replace (tid >=? N) with false by lia.
  unfold Int.mul, Int.add, Int.sub.
  pose proof (Hmul tid ltac:(lia)). pose proof (Hmul (tid + 1) ltac:(lia)).
  rewrite (wrap_in_range (tid + 1)), (wrap_in_range (T - 1)),
    (wrap_in_range (N / T * tid)), (wrap_in_range (N / T * (tid + 1)))
    by (unfold Int.in_range, Int.min_signed, Int.max_signed; lia).
  destruct (tid =? T - 1) eqn:E; [|reflexivity].
  rewrite wrap_in_range; [reflexivity|].
  unfold Int.in_range, Int.min_signed, Int.max_signed.
  apply Z.eqb_eq in E. subst tid. replace (T - 1 + 1) with T in * by lia. lia.
Qed.

Lemma sparse_form tid :
  N <= T -> 0 <= tid < T ->
  GetMatrixWork N T tid = Some (if tid >=? N then (-1, -1) else (tid, tid + 1)).
Proof using All.
  intros HT Htid. unfold Int.max_signed in *.
  unfold GetMatrixWork.
  replace (T >=? N) with true by lia.
  unfold Int.mul, Int.add, Int.sub.
  rewrite (wrap_in_range (tid + 1)), (wrap_in_range (T - 1))
    by (unfold Int.in_range, Int.min_signed, Int.max_signed; lia).
  rewrite !Z.mul_1_l.
  rewrite (wrap_in_range tid), (wrap_in_range (tid + 1))
    by (unfold Int.in_range, Int.min_signed, Int.max_signed; lia).
  destruct (tid >=? N); [reflexivity|].
  destruct (tid =? T - 1); [|reflexivity].
  rewrite wrap_in_range; [rewrite Z.add_0_r; reflexivity|].
  unfold Int.in_range, Int.min_signed, Int.max_signed; lia.
Qed.

Lemma boundary_0 : boundary N T 0 = 0.
Proof using All.
  unfold boundary. destruct (T <? N); [|lia].
  replace (0 =? T) with false by lia. lia.
Qed.

Lemma boundary_T : boundary N T T = N.
Proof using All.
  unfold boundary. destruct (T <? N) eqn:E; [|lia].
  rewrite Z.eqb_refl. reflexivity.
Qed.

Lemma boundary_mono k k' :
  0 <= k <= k' -> k' <= T -> boundary N T k <= boundary N T k'.
Proof using All.
  intros Hk Hk'. unfold boundary.
  destruct (T <? N) eqn:E; [|lia].
  apply Z.ltb_lt in E. destruct (workload_bounds E) as (Hw & Hle & Heq & Hr).
  destruct (k =? T) eqn:E1; destruct (k' =? T) eqn:E2; try lia; nia.
Qed.

(** The rows a valid thread visits are those between its two boundaries. *)
Lemma thread_row_boundary tid row :
  0 <= tid < T ->
  thread_row N T tid row <-> boundary N T tid <= row < boundary N T (tid + 1).
Proof using All.
  intros Htid. unfold thread_row, boundary.
  destruct (T <? N) eqn:E.
  - apply Z.ltb_lt in E. destruct (workload_bounds E) as (Hw & Hle & Heq & Hr).
    rewrite (dense_form tid E Htid).
    replace (tid =? T) with false by lia.
    replace (tid + 1 =? T) with (tid =? T - 1) by lia.
    assert (0 <= N / T * tid) by nia.
    destruct (tid =? T - 1) eqn:E1.
    + apply Z.eqb_eq in E1.
      assert (N / T * (tid + 1) + N mod T = N) by (subst tid; nia).
      split.
      * intros (r & Hr1 & Hn & Hr2). injection Hr1 as <-. simpl in *. lia.
      * intros Hb. eexists; split; [reflexivity|]. unfold in_work, no_work; simpl.
        split; [|lia]. apply andb_false_iff. left. lia.
    + split.
      * intros (r & Hr1 & Hn & Hr2). injection Hr1 as <-. simpl in *. lia.
      * intros Hb. eexists; split; [reflexivity|]. unfold in_work, no_work; simpl.
        split; [|lia]. apply andb_false_iff. left. lia.
  - apply Z.ltb_ge in E. rewrite (sparse_form tid E Htid).
    destruct (tid >=? N) eqn:E1.
    + split.
      * intros (r & Hr1 & Hn & Hr2). injection Hr1 as <-. discriminate Hn.
      * lia.
    + split.
      * intros (r & Hr1 & Hn & Hr2). injection Hr1 as <-. simpl in *. lia.
      * intros Hb. eexists; split; [reflexivity|]. unfold in_work, no_work; simpl.
        split; [|lia]. apply andb_false_iff. left. lia.
Qed.

End Partition.

(* ================================================================== *)
(** ** The partition *)

Ltac int_bounds := unfold Int.in_range, Int.min_signed, Int.max_signed in *.

Lemma rows_in_matrix N T tid row :
  1 <= N <= Int.max_signed -> 1 <= T <= Int.max_signed -> 0 <= tid < T ->
  thread_row N T tid row -> 0 <= row < N.
Proof.
  intros [HN1 HN2] [HT1 HT2] Htid Hin.
  pose proof (boundary_0 N T HN1 HN2 HT1 HT2) as B0.
  pose proof (boundary_T N T HN1 HN2 HT1 HT2) as BT.
  pose proof (boundary_mono N T HN1 HN2 HT1 HT2) as Bm.
  apply (thread_row_boundary N T HN1 HN2 HT1 HT2) in Hin; [|lia].
  pose proof (Bm 0 tid ltac:(lia) ltac:(lia)).
  pose proof (Bm (tid + 1) T ltac:(lia) ltac:(lia)). lia.
Qed.

Lemma rows_covered N T row :
  1 <= N <= Int.max_signed -> 1 <= T <= Int.max_signed -> 0 <= row < N ->
  exists tid, 0 <= tid < T /\ thread_row N T tid row.
Proof.
  intros [HN1 HN2] [HT1 HT2] Hrow.
  pose proof (thread_row_boundary N T HN1 HN2 HT1 HT2) as Br.
  destruct (Z.ltb_spec T N) as [E|E].
  - destruct (workload_bounds N T HN1 HN2 HT1 HT2 E) as (Hw & Hle & Heq & Hr).
    pose proof (Z.div_mod row (N / T) ltac:(lia)) as Hq.
    pose proof (Z.mod_pos_bound row (N / T) ltac:(lia)) as Hm.
    assert (0 <= row / (N / T)) by (apply Z.div_pos; lia).
    exists (if row / (N / T) <? T - 1 then row / (N / T) else T - 1).
    destruct (Z.ltb_spec (row / (N / T)) (T - 1)) as [L|L].
    + split; [lia|]. apply Br; [lia|]. unfold boundary.
      replace (T <? N) with true by lia.
      replace (row / (N / T) =? T) with false by lia.
      replace (row / (N / T) + 1 =? T) with false by lia. lia.
    + split; [lia|]. apply Br; [lia|]. unfold boundary.
      replace (T <? N) with true by lia.
      replace (T - 1 =? T) with false by lia.
      replace (T - 1 + 1 =? T) with true by lia. nia.
  - exists row. split; [lia|]. apply Br; [lia|]. unfold boundary.
    replace (T <? N) with false by lia. lia.
Qed.

Lemma rows_disjoint N T t1 t2 row :
  1 <= N <= Int.max_signed -> 1 <= T <= Int.max_signed ->
  0 <= t1 < T -> 0 <= t2 < T ->
  thread_row N T t1 row -> thread_row N T t2 row -> t1 = t2.
Proof.
  intros [HN1 HN2] [HT1 HT2] H1 H2 R1 R2.
  pose proof (boundary_mono N T HN1 HN2 HT1 HT2) as Bm.
  pose proof (thread_row_boundary N T HN1 HN2 HT1 HT2) as Br.
  apply Br in R1; [|lia]. apply Br in R2; [|lia].
  destruct (Z.lt_trichotomy t1 t2) as [L|[L|L]]; [|exact L|].
  - pose proof (Bm (t1 + 1) t2 ltac:(lia) ltac:(lia)). lia.
  - pose proof (Bm (t2 + 1) t1 ltac:(lia) ltac:(lia)). lia.
Qed.

Lemma GetMatrixWork_returns N T tid :
  1 <= N <= Int.max_signed -> 1 <= T <= Int.max_signed ->
  exists r, GetMatrixWork N T tid = Some r.
Proof.
  intros HN HT. unfold GetMatrixWork.
  destruct (T >=? N).
  - destruct (tid >=? N); eauto.
  - replace (T =? 0) with false by lia. destruct (tid >=? N); eauto.
Qed.

(** C1. For every [N >= 1] and [T >= 1] the calls [GetMatrixWork N T tid],
    [0 <= tid < T], all return; a row is visited by some thread exactly when
    it lies in [0, N); and no row is visited by two distinct threads.  The
    sentinel range visits no row. *)
Theorem GetMatrixWork_partition N T :
  1 <= N <= Int.max_signed -> 1 <= T <= Int.max_signed ->
  (forall tid, 0 <= tid < T -> exists r, GetMatrixWork N T tid = Some r) /\
  (forall row, 0 <= row < N <-> exists tid, 0 <= tid < T /\ thread_row N T tid row) /\
  (forall t1 t2 row, 0 <= t1 < T -> 0 <= t2 < T ->
     thread_row N T t1 row -> thread_row N T t2 row -> t1 = t2).
Proof.
  intros HN HT. split; [|split].
  - intros tid _. now apply GetMatrixWork_returns.
  - intros row. split.
    + now apply rows_covered.
    + intros (tid & Htid & Hin). now apply (rows_in_matrix N T tid).
  - intros t1 t2 row. now apply rows_disjoint.
Qed.

Lemma GetMatrixWork_partition_witness :
  (exists r, GetMatrixWork 10 3 2 = Some r) /\
  (exists tid, 0 <= tid < 3 /\ thread_row 10 3 tid 7).
Proof.
  destruct (GetMatrixWork_partition 10 3) as (Hret & Hcover & _);
    [int_bounds; lia|int_bounds; lia|].
  split; [apply Hret; lia|apply Hcover; lia].
Defined.

(** C3. With [1 <= T < N], [workload = N / T] and [remainder = N mod T]:
    a thread [tid < T - 1] gets [workload * tid, workload * (tid + 1)) and the
    last thread gets [workload * (T - 1), workload * T + remainder); the
    remainder rows all belong to the last thread. *)
Theorem GetMatrixWork_dense N T tid :
  1 <= T -> T < N -> N <= Int.max_signed -> 0 <= tid < T ->
  let workload := N / T in
  let remainder := N mod T in
  (tid < T - 1 ->
     GetMatrixWork N T tid = Some (workload * tid, workload * (tid + 1))) /\
  (tid = T - 1 ->
     GetMatrixWork N T tid = Some (workload * (T - 1), workload * T + remainder)) /\
  workload * T + remainder = N.
Proof.
  intros HT1 HTN HN Htid workload remainder. subst workload remainder.
  assert (HT2 : T <= Int.max_signed) by lia.
  rewrite (dense_form N T ltac:(lia) HN HT1 HT2 tid HTN Htid).
  destruct (workload_bounds N T ltac:(lia) HN HT1 HT2 HTN) as (Hw & Hle & Heq & Hr).
  split; [|split].
  - intros L. replace (tid =? T - 1) with false by lia. reflexivity.
  - intros ->. rewrite Z.eqb_refl. replace (T - 1 + 1) with T by lia. reflexivity.
  - lia.
Qed.

Lemma GetMatrixWork_dense_witness :
  GetMatrixWork 10 3 1 = Some (3, 6) /\ GetMatrixWork 10 3 2 = Some (6, 10).
Proof.
  split.
  - apply (GetMatrixWork_dense 10 3 1); int_bounds; lia.
  - apply (GetMatrixWork_dense 10 3 2); int_bounds; lia.
Defined.

(** C4. With [N >= 1] and [T >= N]: thread [tid < N] gets the one-row range
    [tid, tid + 1), thread [tid >= N] gets the sentinel and visits no row;
    so every thread visits at most one row, and exactly one when [T = N]. *)
Theorem GetMatrixWork_sparse N T tid :
  1 <= N -> N <= T -> T <= Int.max_signed -> 0 <= tid < T ->
  (tid < N -> GetMatrixWork N T tid = Some (tid, tid + 1)) /\
  (N <= tid ->
     GetMatrixWork N T tid = Some (-1, -1) /\ forall row, ~ thread_row N T tid row) /\
  (forall r1 r2, thread_row N T tid r1 -> thread_row N T tid r2 -> r1 = r2) /\
  (T = N -> forall row, thread_row N T tid row <-> row = tid).
Proof.
  intros HN HNT HT Htid.
  pose proof (sparse_form N T HN ltac:(lia) ltac:(lia) HT tid HNT Htid) as E.
  assert (Hrow : forall row, thread_row N T tid row <-> tid < N /\ row = tid).
  { intros row. unfold thread_row. rewrite E. destruct (Z.geb_spec tid N) as [G|G].
    - split; [|lia]. intros (r & Hr & Hn & _). injection Hr as <-. discriminate Hn.
    - split.
      + intros (r & Hr & Hn & Hb). injection Hr as <-. simpl in Hb. lia.
      + intros [_ ->]. eexists; split; [reflexivity|]. unfold in_work, no_work; simpl.
        split; [|lia]. apply andb_false_iff. left. lia. }
  repeat split.
  - intros L. rewrite E. replace (tid >=? N) with false by lia. reflexivity.
  - rewrite E. replace (tid >=? N) with true by lia. reflexivity.
  - intros row Hin. apply Hrow in Hin. lia.
  - intros r1 r2 H1 H2. apply Hrow in H1, H2. lia.
  - intros Hin. apply Hrow in Hin. lia.
  - intros ->. apply Hrow. lia.
Qed.

Lemma GetMatrixWork_sparse_witness :
  GetMatrixWork 4 6 2 = Some (2, 3) /\ GetMatrixWork 4 6 5 = Some (-1, -1).
Proof.
  split.
  - apply (GetMatrixWork_sparse 4 6 2); int_bounds; lia.
  - apply (GetMatrixWork_sparse 4 6 5); int_bounds; lia.
Defined.

(* ================================================================== *)
(** ** Thread indices outside [0, T) *)

Lemma sentinel_iff N T tid r :
  1 <= N <= Int.max_signed -> 1 <= T <= Int.max_signed -> Int.in_range tid ->
  GetMatrixWork N T tid = Some r ->
  (r = (-1, -1) <-> N <= tid).
Proof.
  intros [HN1 HN2] [HT1 HT2] Htid. unfold GetMatrixWork.
  destruct (Z.geb_spec tid N) as [G|G].
  { destruct (T >=? N); [|replace (T =? 0) with false by lia];
      intros [= <-]; split; auto. }
  assert (W1 : Int.add tid 1 = tid + 1)
    by (apply wrap_in_range; int_bounds; lia).
  assert (W2 : Int.sub T 1 = T - 1)
    by (apply wrap_in_range; int_bounds; lia).
  rewrite W1, W2.
  destruct (Z.geb_spec T N) as [E|E].
  - unfold Int.mul. rewrite !Z.mul_1_l.
    rewrite (wrap_in_range tid), (wrap_in_range (tid + 1)) by (int_bounds; lia).
    unfold Int.add. rewrite Z.add_0_r, (wrap_in_range (tid + 1)) by (int_bounds; lia).
    destruct (tid =? T - 1); intros [= <-]; split; try lia; intros [= ? ?]; lia.
  - replace (T =? 0) with false by lia.
    rewrite Z.rem_mod_nonneg, Z.quot_div_nonneg by lia.
    destruct (workload_bounds N T HN1 HN2 HT1 HT2 E) as (Hw & Hle & Heq & Hr).
    destruct (Z.eqb_spec tid (T - 1)) as [L|L].
    + subst tid. unfold Int.mul.
      assert (0 <= N / T * (T - 1) <= N) by nia.
      rewrite (wrap_in_range (N / T * (T - 1))) by (int_bounds; lia).
      intros [= <-]; split; try lia; intros [= ? ?]; lia.
    + unfold Int.mul.
      destruct (wrap_congruent (N / T * tid)) as [k1 H1].
      destruct (wrap_congruent (N / T * (tid + 1))) as [k2 H2].
      intros [= <-]; split; try lia; intros HH.
      apply pair_equal_spec in HH. destruct HH as [E1 E2].
      rewrite E1 in H1. rewrite E2 in H2.
      int_bounds. assert (Hle' : N / T <= N) by nia.
      revert Hw Hle' H1 H2. generalize (N / T). intros w Hw Hle' H1 H2.
      unfold Int.modulus in *.
      assert (Hk : w = 2 ^ 32 * (k2 - k1)) by lia. lia.
Qed.

Lemma stray_form N T tid :
  1 <= T -> T <= tid < N -> N <= Int.max_signed ->
  N / T * (tid + 1) <= Int.max_signed ->
  GetMatrixWork N T tid = Some (N / T * tid, N / T * (tid + 1)).
Proof.
  intros HT Htid HN Hfit.
  destruct (workload_bounds N T ltac:(lia) HN HT ltac:(lia) ltac:(lia))
    as (Hw & Hle & Heq & Hr).
  unfold GetMatrixWork.
  replace (T >=? N) with false by lia.
  replace (T =? 0) with false by lia.
  rewrite Z.rem_mod_nonneg, Z.quot_div_nonneg by lia.
  replace (tid >=? N) with false by lia.
  unfold Int.mul, Int.add, Int.sub.
  assert (0 <= N / T * tid <= N / T * (tid + 1)) by nia.
  rewrite (wrap_in_range (tid + 1)), (wrap_in_range (T - 1)),
    (wrap_in_range (N / T * tid)), (wrap_in_range (N / T * (tid + 1)))
    by (int_bounds; lia).
  replace (tid =? T - 1) with false by lia. reflexivity.
Qed.

(** C10, the claim as stated fails: with [N = 4], [T = 2] the stray index
    [tid = 2] satisfies [T <= tid < N] and gets the range [4, 6), which shares
    no row with the ranges of the valid threads [0] and [1]. *)
Lemma GetMatrixWork_stray_can_be_disjoint :
  2 <= 2 < 4 /\ GetMatrixWork 4 2 2 = Some (4, 6) /\
  ~ (exists t row, 0 <= t < 2 /\ thread_row 4 2 t row /\ in_work (4, 6) row).
Proof.
  split; [lia|]. split; [reflexivity|].
  intros (t & row & Ht & Hin & _ & Hrow). simpl in Hrow.
  apply rows_in_matrix in Hin; int_bounds; lia.
Qed.

(** C10, amended. For [N >= 1], [T >= 1] and any [int] [tid], [GetMatrixWork]
    returns, and the result is the sentinel [(-1, -1)] exactly when
    [tid >= N].  A stray index [T <= tid < N] whose products fit in an [int]
    gets the non-empty range [N/T * tid, N/T * (tid + 1)); that range starts
    at or after the last valid thread's first row, and it shares a row with
    the valid threads' ranges exactly when [N/T * tid < N]. *)
Theorem GetMatrixWork_unchecked_tid N T tid :
  1 <= N <= Int.max_signed -> 1 <= T <= Int.max_signed -> Int.in_range tid ->
  exists r,
    GetMatrixWork N T tid = Some r /\
    (r = (-1, -1) <-> N <= tid) /\
    (T <= tid < N -> N / T * (tid + 1) <= Int.max_signed ->
       r = (N / T * tid, N / T * (tid + 1)) /\
       fst r < snd r /\
       N / T * (T - 1) < fst r /\
       ((exists t row, 0 <= t < T /\ thread_row N T t row /\ in_work r row)
        <-> N / T * tid < N)).
Proof.
  intros HN HT Htid.
  destruct (GetMatrixWork_returns N T tid HN HT) as [r Hr].
  exists r. split; [exact Hr|]. split; [now apply (sentinel_iff N T tid)|].
  intros Hs Hfit.
  rewrite (stray_form N T tid ltac:(lia) Hs ltac:(lia) Hfit) in Hr.
  injection Hr as <-. simpl.
  destruct (workload_bounds N T ltac:(lia) ltac:(lia) ltac:(lia) ltac:(lia) ltac:(lia))
    as (Hw & Hle & Heq & Hrem).
  split; [reflexivity|]. split; [nia|]. split; [nia|].
  split.
  - intros (t & row & Ht & Hin & _ & Hrow). simpl in Hrow.
    apply rows_in_matrix in Hin; auto. lia.
  - intros Hlt.
    destruct (rows_covered N T (N / T * tid) HN HT ltac:(nia)) as (t & Ht & Hin).
    exists t, (N / T * tid). split; [exact Ht|]. split; [exact Hin|].
    unfold in_work, no_work; simpl. split; [|nia].
    apply andb_false_iff. left. apply Z.eqb_neq. nia.
Qed.

Lemma GetMatrixWork_unchecked_tid_witness :
  exists r,
    GetMatrixWork 10 3 3 = Some r /\
    (r = (-1, -1) <-> 10 <= 3) /\
    (3 <= 3 < 10 -> 10 / 3 * (3 + 1) <= Int.max_signed ->
       r = (10 / 3 * 3, 10 / 3 * (3 + 1)) /\
       fst r < snd r /\
       10 / 3 * (3 - 1) < fst r /\
       ((exists t row, 0 <= t < 3 /\ thread_row 10 3 t row /\ in_work r row)
        <-> 10 / 3 * 3 < 10)).
Proof.
  apply (GetMatrixWork_unchecked_tid 10 3 3); int_bounds; lia.
Defined.

(* ================================================================== *)
(** ** Reasoning about effects *)

Lemma append_nil_r (s : string) : s ++ "" = s.
Proof. induction s as [|c s IH]; simpl; [reflexivity|now rewrite IH]. Qed.

Lemma append_assoc (s1 s2 s3 : string) : (s1 ++ s2) ++ s3 = s1 ++ (s2 ++ s3).
Proof. induction s1 as [|c s1 IH]; simpl; [reflexivity|now rewrite IH]. Qed.

Lemma emit_nil w : emit w "" [] = w.
Proof. destruct w. unfold emit; simpl. now rewrite append_nil_r, app_nil_r. Qed.

Lemma emit_emit w s1 l1 s2 l2 :
  emit (emit w s1 l1) s2 l2 = emit w (s1 ++ s2) (l1 ++ l2).
Proof. unfold emit; simpl. now rewrite append_assoc, <- app_assoc. Qed.

Lemma write_emit s w : write s w = Returned tt (emit w s []).
Proof. unfold write, emit. now rewrite app_nil_r. Qed.

Lemma load_emit row i v w :
  cell (matrix_mem w) row i = Some v ->
  load row i w = Returned v (emit w "" [(row, i)]).
Proof. intros H. unfold load, emit. now rewrite H, append_nil_r. Qed.

Lemma bind_returned {A B} (m : prog A) (k : A -> prog B) w a w' :
  m w = Returned a w' -> bind m k w = k a w'.
Proof. intros H. unfold bind. now rewrite H. Qed.

Lemma zrange_app lo n1 n2 :
  zrange lo (n1 + n2) = (zrange lo n1 ++ zrange (lo + Z.of_nat n1) n2)%list.
Proof.
  revert lo. induction n1 as [|n1 IH]; intros lo.
  - simpl. now rewrite Z.add_0_r.
  - cbn [Nat.add zrange]. rewrite IH. simpl app. do 3 f_equal. lia.
Qed.

Lemma In_zrange lo n x : In x (zrange lo n) <-> lo <= x < lo + Z.of_nat n.
Proof.
  revert lo. induction n as [|n IH]; intros lo.
  - simpl. lia.
  - cbn [zrange In]. rewrite IH. lia.
Qed.

Lemma skipn_nth_error {A} (l : list A) n x :
  nth_error l n = Some x -> skipn n l = x :: skipn (S n) l.
Proof.
  revert l. induction n as [|n IH]; intros [|y l] H; try discriminate.
  - injection H as ->. reflexivity.
  - simpl in H. apply IH in H. exact H.
Qed.

(** *** The matrix is only read *)

Lemma keeps_ret {A} (a : A) : keeps_matrix (ret a).
Proof. intros w. reflexivity. Qed.

Lemma keeps_write s : keeps_matrix (write s).
Proof. intros w. reflexivity. Qed.

Lemma keeps_trap {A} : keeps_matrix (@trap A).
Proof. intros w. reflexivity. Qed.

Lemma keeps_load row i : keeps_matrix (load row i).
Proof. intros w. unfold load. destruct (cell (matrix_mem w) row i); reflexivity. Qed.

Lemma keeps_bind {A B} (m : prog A) (k : A -> prog B) :
  keeps_matrix m -> (forall a, keeps_matrix (k a)) -> keeps_matrix (bind m k).
Proof.
  intros Hm Hk w. unfold bind. specialize (Hm w).
  destruct (m w) as [a w'|st w'|w']; simpl in *; try exact Hm.
  rewrite (Hk a w'). exact Hm.
Qed.

Lemma keeps_for_steps n i body :
  (forall j, keeps_matrix (body j)) -> keeps_matrix (for_steps n i body).
Proof.
  intros Hb. revert i. induction n as [|n IH]; intros i.
  - apply keeps_ret.
  - simpl. apply keeps_bind; [apply Hb|intros _; apply IH].
Qed.

Lemma keeps_for_range lo hi body :
  (forall j, keeps_matrix (body j)) -> keeps_matrix (for_range lo hi body).
Proof. intros Hb. now apply keeps_for_steps. Qed.

(** C7. [CalculateFilter] leaves every cell of the matrix as it was, for
    every matrix, dimension, thread count and thread index, whatever the
    outcome of the call. *)
Theorem CalculateFilter_keeps_matrix matrixDim numT tid (w : world) :
  matrix_mem (final_world (CalculateFilter matrixDim numT tid w)) = matrix_mem w.
Proof.
  revert w. fold (keeps_matrix (CalculateFilter matrixDim numT tid)).
  unfold CalculateFilter.
  destruct (GetMatrixWork matrixDim numT tid) as [[start end_]|]; [|apply keeps_trap].
  destruct ((start =? -1) && (end_ =? -1)); [apply keeps_ret|].
  apply keeps_bind; [apply keeps_write|intros _].
  apply keeps_for_range. intros row.
  apply keeps_bind; [|intros _; apply keeps_write].
  apply keeps_for_range. intros i.
  apply keeps_bind; [apply keeps_load|intros v; apply keeps_write].
Qed.

(* ================================================================== *)
(** ** The row loops *)

Section RowLoops.

Variable m : list (list Z).
Variable N : Z.
Hypothesis m_square : square m N.

Lemma cell_at row i r v :
  0 <= row -> 0 <= i ->
  nth_error m (Z.to_nat row) = Some r -> nth_error r (Z.to_nat i) = Some v ->
  cell m row i = Some v.
Proof using Type.
  intros Hrow Hi Hr Hv. unfold cell.
  replace (row <? 0) with false by lia. replace (i <? 0) with false by lia.
  simpl. now rewrite Hr.
Qed.

(** The inner loop over the columns [i .. i + n - 1] of row [row]. *)
Lemma print_cells row r :
  0 <= row -> nth_error m (Z.to_nat row) = Some r ->
  forall n i w,
    matrix_mem w = m -> 0 <= i -> (Z.to_nat i + n <= List.length r)%nat ->
    for_steps n i (fun i => v <- load row i ;; write (show_int v ++ tab)) w
    = Returned tt (emit w (row_text (firstn n (skipn (Z.to_nat i) r)))
                          (map (pair row) (zrange i n))).
Proof using Type.
  intros Hrow Hr. induction n as [|n IH]; intros i w Hw Hi Hlen.
  - simpl. now rewrite emit_nil.
  - destruct (nth_error r (Z.to_nat i)) as [v|] eqn:Hv;
      [|apply nth_error_None in Hv; lia].
    cbn [for_steps].
    rewrite (bind_returned _ _ w tt (emit w (show_int v ++ tab) [(row, i)])).
    + rewrite IH; [|exact Hw|lia|lia].
      rewrite emit_emit. replace (Z.to_nat (i + 1)) with (S (Z.to_nat i)) by lia.
      rewrite (skipn_nth_error r _ v Hv). cbn [firstn row_text zrange map].
      now rewrite append_assoc.
    + rewrite (bind_returned _ _ w v (emit w "" [(row, i)])).
      * now rewrite write_emit, emit_emit.
      * apply load_emit. rewrite Hw. now apply (cell_at row i r v).
Qed.

(** The outer loop over the rows [row .. row + n - 1]. *)
Lemma print_rows :
  forall n row w,
    matrix_mem w = m -> 0 <= row -> (Z.to_nat row + n <= List.length m)%nat ->
    for_steps n row (fun row =>
      for_range 0 N (fun i => v <- load row i ;; write (show_int v ++ tab)) ;;
      write endl) w
    = Returned tt (emit w (rows_text (firstn n (skipn (Z.to_nat row) m)))
                          (cells_of N (zrange row n))).
Proof using m_square.
  destruct m_square as [Hlen Hrows].
  induction n as [|n IH]; intros row w Hw Hrow Hn.
  - simpl. now rewrite emit_nil.
  - destruct (nth_error m (Z.to_nat row)) as [r|] eqn:Hr;
      [|apply nth_error_None in Hr; lia].
    pose proof (Hrows r (nth_error_In _ _ Hr)) as Hr_len.
    cbn [for_steps].
    rewrite (bind_returned _ _ w tt
      (emit w (row_text r ++ endl) (map (pair row) (zrange 0 (Z.to_nat N))))).
    + rewrite IH; [|exact Hw|lia|lia].
      rewrite emit_emit. replace (Z.to_nat (row + 1)) with (S (Z.to_nat row)) by lia.
      rewrite (skipn_nth_error m _ r Hr). cbn [firstn rows_text zrange].
      unfold cells_of. cbn [flat_map]. now rewrite append_assoc.
    + rewrite (bind_returned _ _ w tt
        (emit w (row_text r) (map (pair row) (zrange 0 (Z.to_nat N))))).
      * rewrite write_emit, emit_emit. now rewrite app_nil_r.
      * unfold for_range. rewrite Z.sub_0_r.
        rewrite (print_cells row r Hrow Hr (Z.to_nat N) 0 w Hw); [|lia|lia].
        simpl skipn. rewrite firstn_all2 by lia. reflexivity.
Qed.

End RowLoops.

(* ================================================================== *)
(** ** CalculateFilter and the loop of main *)

(** The range of a valid thread, in terms of the partition boundaries. *)
Lemma work_boundaries N T tid :
  1 <= N <= Int.max_signed -> 1 <= T <= Int.max_signed -> 0 <= tid < T ->
  exists r,
    GetMatrixWork N T tid = Some r /\
    0 <= boundary N T tid <= boundary N T (tid + 1) /\
    boundary N T (tid + 1) <= N /\
    if no_work r
    then boundary N T tid = boundary N T (tid + 1)
    else r = (boundary N T tid, boundary N T (tid + 1))
         /\ boundary N T tid < boundary N T (tid + 1).
Proof.
  intros [HN1 HN2] [HT1 HT2] Htid.
  pose proof (boundary_0 N T HN1 HN2 HT1 HT2) as B0.
  pose proof (boundary_T N T HN1 HN2 HT1 HT2) as BT.
  pose proof (boundary_mono N T HN1 HN2 HT1 HT2) as Bm.
  pose proof (Bm 0 tid ltac:(lia) ltac:(lia)).
  pose proof (Bm tid (tid + 1) ltac:(lia) ltac:(lia)).
  pose proof (Bm (tid + 1) T ltac:(lia) ltac:(lia)).
  unfold boundary in *. destruct (Z.ltb_spec T N) as [E|E].
  - rewrite (dense_form N T HN1 HN2 HT1 HT2 tid E Htid).
    eexists. split; [reflexivity|]. split; [lia|]. split; [lia|].
    destruct (workload_bounds N T HN1 HN2 HT1 HT2 E) as (Hw & Hle & Heq & Hr).
    replace (tid =? T) with false in * by lia.
    replace (tid + 1 =? T) with (tid =? T - 1) in * by lia.
    unfold no_work. cbn [fst snd].
    assert (0 <= N / T * tid) by nia.
    replace (N / T * tid =? -1) with false by lia. cbn [andb].
    destruct (Z.eqb_spec tid (T - 1)) as [L|L].
    + subst tid. replace (T - 1 + 1) with T by lia.
      split; [f_equal; lia|nia].
    + split; [reflexivity|nia].
  - rewrite (sparse_form N T HN1 HN2 HT1 HT2 tid E Htid).
    eexists. split; [reflexivity|]. split; [lia|]. split; [lia|].
    destruct (Z.geb_spec tid N) as [G|G].
    + simpl. lia.
    + unfold no_work. cbn [fst snd].
      replace (tid =? -1) with false by lia. cbn [andb].
      split; [f_equal; lia|lia].
Qed.

(** One call for a valid thread, on a square matrix. *)
Lemma CalculateFilter_thread N T tid w :
  1 <= N <= Int.max_signed -> 1 <= T <= Int.max_signed -> 0 <= tid < T ->
  square (matrix_mem w) N ->
  CalculateFilter N T tid w
  = Returned tt
      (emit w (thread_text (matrix_mem w) N T tid)
              (cells_of N (zrange (boundary N T tid)
                             (Z.to_nat (boundary N T (tid + 1) - boundary N T tid))))).
Proof.
  intros HN HT Htid Hsq.
  destruct (work_boundaries N T tid HN HT Htid) as (r & Hr & Hb0 & HbN & Hcase).
  unfold CalculateFilter, thread_text. rewrite Hr. destruct r as [start end_].
  unfold no_work in Hcase. cbn [fst snd] in Hcase.
  destruct ((start =? -1) && (end_ =? -1)).
  - rewrite Hcase, Z.sub_diag, Z.ltb_irrefl. simpl. now rewrite emit_nil.
  - destruct Hcase as [[= -> ->] Hlt].
    replace (boundary N T tid <? boundary N T (tid + 1)) with true by lia.
    rewrite (bind_returned _ _ w tt
      (emit w ("Thread " ++ show_int tid ++ " of " ++ show_int T ++ endl) [])).
    + unfold for_range.
      rewrite (print_rows (matrix_mem w) N Hsq); [|reflexivity|lia|].
      * rewrite emit_emit. unfold rows_between. simpl app.
        now rewrite !append_assoc.
      * destruct Hsq as [Hlen _]. lia.
    + apply write_emit.
Qed.

(** The first [n] iterations of the loop of [main], from thread [k] on. *)
Lemma distribute_steps N T :
  1 <= N <= Int.max_signed -> 1 <= T <= Int.max_signed ->
  forall n k w,
    0 <= k -> k + Z.of_nat n <= T -> square (matrix_mem w) N ->
    for_steps n k (fun i => CalculateFilter N T i) w
    = Returned tt
        (emit w (threads_text (matrix_mem w) N T (zrange k n))
                (cells_of N (zrange (boundary N T k)
                   (Z.to_nat (boundary N T (k + Z.of_nat n) - boundary N T k))))).
Proof.
  intros HN HT. induction n as [|n IH]; intros k w Hk HkT Hsq.
  - simpl. rewrite Z.add_0_r, Z.sub_diag. simpl. now rewrite emit_nil.
  - cbn [for_steps].
    rewrite (bind_returned _ _ w tt _ (CalculateFilter_thread N T k w HN HT ltac:(lia) Hsq)).
    rewrite IH; [|lia|lia|exact Hsq].
    rewrite emit_emit. cbn [threads_text zrange emit matrix_mem].
    f_equal. f_equal. unfold cells_of. rewrite <- flat_map_app. f_equal.
    destruct (work_boundaries N T k HN HT ltac:(lia)) as (_ & _ & Hb0 & _ & _).
    destruct HN as [HN1 HN2], HT as [HT1 HT2].
    pose proof (boundary_mono N T HN1 HN2 HT1 HT2 (k + 1) (k + Z.of_nat (S n))
                  ltac:(lia) ltac:(lia)).
    replace (k + 1 + Z.of_nat n) with (k + Z.of_nat (S n)) by lia.
    replace (Z.to_nat (boundary N T (k + Z.of_nat (S n)) - boundary N T k))
      with (Z.to_nat (boundary N T (k + 1) - boundary N T k)
            + Z.to_nat (boundary N T (k + Z.of_nat (S n)) - boundary N T (k + 1)))%nat
      by lia.
    rewrite zrange_app. do 2 f_equal. lia.
Qed.

(** C5. When [GetMatrixWork] yields the sentinel range, [CalculateFilter]
    returns at once and leaves the world as it found it: it has read no cell
    of the matrix and printed nothing. *)
Theorem CalculateFilter_no_work N T tid r w :
  GetMatrixWork N T tid = Some r -> no_work r = true ->
  CalculateFilter N T tid w = Returned tt w.
Proof.
  intros Hr Hn. unfold CalculateFilter. rewrite Hr. destruct r as [start end_].
  unfold no_work in Hn. cbn [fst snd] in Hn. now rewrite Hn.
Qed.

Lemma CalculateFilter_no_work_witness :
  CalculateFilter 2 3 2 (mkWorld [[1; 2]; [3; 4]] "" [])
  = Returned tt (mkWorld [[1; 2]; [3; 4]] "" []).
Proof.
  apply (CalculateFilter_no_work 2 3 2 (-1, -1)); reflexivity.
Defined.

(** C6. For a valid thread whose range [start, end_) is not the sentinel,
    on a square matrix of dimension [N]: the range lies inside the matrix,
    and [CalculateFilter] returns after reading the cells of the rows
    [start, start + 1, ..., end_ - 1] in that order, each row in column order
    [0 .. N - 1], and after printing the banner and then one line per row,
    every value of the row followed by a tab. *)
Theorem CalculateFilter_prints_rows N T tid start end_ w :
  1 <= N <= Int.max_signed -> 1 <= T <= Int.max_signed -> 0 <= tid < T ->
  square (matrix_mem w) N ->
  GetMatrixWork N T tid = Some (start, end_) -> no_work (start, end_) = false ->
  0 <= start < end_ /\ end_ <= N /\
  CalculateFilter N T tid w
  = Returned tt
      (emit w ("Thread " ++ show_int tid ++ " of " ++ show_int T ++ endl
               ++ rows_text (rows_between (matrix_mem w) start end_))
              (cells_of N (zrange start (Z.to_nat (end_ - start))))).
Proof.
  intros HN HT Htid Hsq Hr Hn.
  destruct (work_boundaries N T tid HN HT Htid) as (r & Hr' & Hb0 & HbN & Hcase).
  rewrite Hr in Hr'. injection Hr' as <-. rewrite Hn in Hcase.
  destruct Hcase as [[= -> ->] Hlt].
  split; [lia|]. split; [lia|].
  rewrite (CalculateFilter_thread N T tid w HN HT Htid Hsq).
  unfold thread_text.
  replace (boundary N T tid <? boundary N T (tid + 1)) with true by lia.
  reflexivity.
Qed.

Lemma CalculateFilter_prints_rows_witness :
  CalculateFilter 3 2 1 (mkWorld [[1; 2; 3]; [4; 5; 6]; [7; 8; -9]] "" [])
  = Returned tt
      (mkWorld [[1; 2; 3]; [4; 5; 6]; [7; 8; -9]]
         ("Thread 1 of 2" ++ endl
          ++ "4" ++ tab ++ "5" ++ tab ++ "6" ++ tab ++ endl
          ++ "7" ++ tab ++ "8" ++ tab ++ "-9" ++ tab ++ endl)
         [(1, 0); (1, 1); (1, 2); (2, 0); (2, 1); (2, 2)]).
Proof.
  apply (CalculateFilter_prints_rows 3 2 1 1 3
           (mkWorld [[1; 2; 3]; [4; 5; 6]; [7; 8; -9]] "" [])).
  - int_bounds; lia.
  - int_bounds; lia.
  - lia.
  - split; [reflexivity|]. simpl. intros r [<-|[<-|[<-|[]]]]; reflexivity.
  - reflexivity.
  - reflexivity.
Defined.

(** C9. For [N >= 1] and [T >= 1], on a square matrix of dimension [N], the
    loop of [main] returns, and the cells it has read are those of the rows
    [0, 1, ..., N - 1] in that order, every row once and in column order; what
    it has printed is what the threads [0 .. T - 1] print, one after the
    other. *)
Theorem main_distribute_rows N T w :
  1 <= N <= Int.max_signed -> 1 <= T <= Int.max_signed ->
  square (matrix_mem w) N ->
  main_distribute N T w
  = Returned tt
      (emit w (threads_text (matrix_mem w) N T (zrange 0 (Z.to_nat T)))
              (cells_of N (zrange 0 (Z.to_nat N)))).
Proof.
  intros HN HT Hsq. unfold main_distribute, for_range. rewrite Z.sub_0_r.
  rewrite (distribute_steps N T HN HT (Z.to_nat T) 0 w); [|lia|lia|exact Hsq].
  destruct HN as [HN1 HN2], HT as [HT1 HT2].
  rewrite (boundary_0 N T HN1 HN2 HT1 HT2).
  replace (0 + Z.of_nat (Z.to_nat T)) with T by lia.
  rewrite (boundary_T N T HN1 HN2 HT1 HT2). now rewrite Z.sub_0_r.
Qed.

Lemma main_distribute_rows_witness :
  main_distribute 3 2 (mkWorld [[1; 2; 3]; [4; 5; 6]; [7; 8; 9]] "" [])
  = Returned tt
      (mkWorld [[1; 2; 3]; [4; 5; 6]; [7; 8; 9]]
         ("Thread 0 of 2" ++ endl
          ++ "1" ++ tab ++ "2" ++ tab ++ "3" ++ tab ++ endl
          ++ "Thread 1 of 2" ++ endl
          ++ "4" ++ tab ++ "5" ++ tab ++ "6" ++ tab ++ endl
          ++ "7" ++ tab ++ "8" ++ tab ++ "9" ++ tab ++ endl)
         [(0, 0); (0, 1); (0, 2); (1, 0); (1, 1); (1, 2); (2, 0); (2, 1); (2, 2)]).
Proof.
  apply (main_distribute_rows 3 2 (mkWorld [[1; 2; 3]; [4; 5; 6]; [7; 8; 9]] "" [])).
  - int_bounds; lia.
  - int_bounds; lia.
  - split; [reflexivity|]. simpl. intros r [<-|[<-|[<-|[]]]]; reflexivity.
Defined.

(* ================================================================== *)
(** ** sqrt on a converted int *)

Lemma digits2_bounds p :
  2 ^ (Z.pos (digits2_pos p) - 1) <= Z.pos p < 2 ^ Z.pos (digits2_pos p).
Proof.
  induction p as [p IH|p IH|]; cbn [digits2_pos].
  - rewrite Pos2Z.inj_succ, Pos2Z.inj_xI.
    replace (Z.succ (Z.pos (digits2_pos p)) - 1) with (Z.succ (Z.pos (digits2_pos p) - 1)) by lia.
    rewrite !Z.pow_succ_r by lia.
    revert IH. generalize (2 ^ (Z.pos (digits2_pos p) - 1)) (2 ^ Z.pos (digits2_pos p)). intros; lia.
  - rewrite Pos2Z.inj_succ. change (Z.pos p~0) with (2 * Z.pos p).
    replace (Z.succ (Z.pos (digits2_pos p)) - 1) with (Z.succ (Z.pos (digits2_pos p) - 1)) by lia.
    rewrite !Z.pow_succ_r by lia.
    revert IH. generalize (2 ^ (Z.pos (digits2_pos p) - 1)) (2 ^ Z.pos (digits2_pos p)). intros; lia.
  - simpl. lia.
Qed.

Lemma digits2_unique p k :
  2 ^ (k - 1) <= Z.pos p < 2 ^ k -> Z.pos (digits2_pos p) = k.
Proof.
  intros H. pose proof (digits2_bounds p) as B.
  set (j := Z.pos (digits2_pos p)) in *.
  assert (0 < j) by (unfold j; lia).
  assert (0 < k).
  { destruct (Z.ltb_spec 0 k); [lia|].
    destruct (Z.eqb_spec k 0) as [->|]; [simpl in H; lia|].
    rewrite (Z.pow_neg_r 2 k) in H by lia. lia. }
  destruct (Z.lt_trichotomy j k) as [L|[L|L]]; [|exact L|].
  - assert (2 ^ j <= 2 ^ (k - 1)) by (apply Z.pow_le_mono_r; lia). lia.
  - assert (2 ^ k <= 2 ^ (j - 1)) by (apply Z.pow_le_mono_r; lia). lia.
Qed.

Lemma iter_xO_pow p n : Z.pos (Pos.iter xO p n) = Z.pos p * 2 ^ Z.pos n.
Proof.
  induction n as [|n IH] using Pos.peano_ind.
  - simpl. lia.
  - rewrite Pos.iter_succ, Pos2Z.inj_xO, IH, Pos2Z.inj_succ, Z.pow_succ_r by lia. lia.
Qed.


Lemma loc_of_shr_record_of_loc m l :
  loc_of_shr_record (shr_record_of_loc m l) = l.
Proof. destruct l as [|[| |]]; reflexivity. Qed.

Lemma shr_fexp_canonical m e l :
  Z.pos (digits2_pos m) = 53 -> -1074 <= e ->
  shr_fexp 53 1024 (Z.pos m) e l = (shr_record_of_loc (Z.pos m) l, e).
Proof.
  intros Hd He. unfold shr_fexp, Zdigits2. rewrite Hd.
  replace (fexp 53 1024 (53 + e) - e) with 0 by (unfold fexp, emin; lia).
  reflexivity.
Qed.

(** Rounding a 53-bit mantissa whose rounded value still has 53 bits. *)
Lemma binary_round_aux_canonical m e l m' :
  Z.pos (digits2_pos m) = 53 -> -1074 <= e <= 971 ->
  round_nearest_even (Z.pos m) l = Z.pos m' ->
  Z.pos (digits2_pos m') = 53 ->
  binary_round_aux 53 1024 false (Z.pos m) e l = S754_finite false m' e.
Proof.
  intros Hd He Hr Hd'. unfold binary_round_aux.
  rewrite (shr_fexp_canonical m e l Hd) by lia.
  rewrite loc_of_shr_record_of_loc.
  replace (shr_m (shr_record_of_loc (Z.pos m) l)) with (Z.pos m)
    by (destruct l as [|[| |]]; reflexivity).
  rewrite Hr. rewrite (shr_fexp_canonical m' e loc_Exact Hd') by lia.
  cbn [shr_record_of_loc shr_m].
  replace (e <=? 1024 - 53) with true by lia. reflexivity.
Qed.

Lemma shl_align_pow p ex ex' :
  ex' <= ex ->
  exists mz, shl_align p ex ex' = (mz, ex') /\ Z.pos mz = Z.pos p * 2 ^ (ex - ex').
Proof.
  intros H. unfold shl_align. destruct (ex' - ex) as [|d|d] eqn:E; try lia.
  - exists p. replace ex' with ex by lia. rewrite Z.sub_diag. split; [reflexivity|]. simpl. lia.
  - exists (Pos.iter xO p d). split; [reflexivity|].
    rewrite iter_xO_pow. do 2 f_equal. lia.
Qed.

Lemma double_of_int_pos p :
  Z.pos p < 2 ^ 53 ->
  exists m,
    double_of_int (Z.pos p) = S754_finite false m (Z.pos (digits2_pos p) - 53) /\
    Z.pos m = Z.pos p * 2 ^ (53 - Z.pos (digits2_pos p)).
Proof.
  intros Hp. pose proof (digits2_bounds p) as B.
  set (k := Z.pos (digits2_pos p)) in *.
  assert (Hk : 0 < k <= 53).
  { split; [unfold k; lia|]. destruct (Z.leb_spec k 53); [assumption|].
    assert (2 ^ 53 <= 2 ^ (k - 1)) by (apply Z.pow_le_mono_r; lia). lia. }
  unfold double_of_int, binary_normalize, binary_round. fold k.
  replace (fexp 53 1024 (k + 0)) with (k - 53) by (unfold fexp, emin; lia).
  destruct (shl_align_pow p 0 (k - 53) ltac:(lia)) as (mz & -> & Hmz).
  replace (0 - (k - 53)) with (53 - k) in Hmz by lia.
  exists mz. split; [|exact Hmz].
  apply binary_round_aux_canonical; try lia; [|reflexivity|].
  all: apply digits2_unique; rewrite Hmz.
  all: replace (2 ^ (53 - 1)) with (2 ^ (k - 1) * 2 ^ (53 - k))
         by (rewrite <- Z.pow_add_r by lia; f_equal; lia).
  all: replace (2 ^ 53) with (2 ^ k * 2 ^ (53 - k))
         by (rewrite <- Z.pow_add_r by lia; f_equal; lia).
  all: assert (0 < 2 ^ (53 - k)) by (apply Z.pow_pos_nonneg; lia); nia.
Qed.

(** The root [q] of [d] scaled by [P * P] lies between the scaled integer
    root [t * P] and one below the next multiple of [P]. *)
Lemma scaled_sqrt_bracket d t q r P Q :
  0 <= t -> t * t <= d < (t + 1) * (t + 1) ->
  0 <= q -> d * P * P = q * q + r -> 0 <= r <= 2 * q ->
  0 < Q -> d < Q * Q -> 2 * Q < P ->
  t * P <= q /\ q + 1 < (t + 1) * P /\ q + 1 < Q * P.
Proof.
  intros Ht Hd Hq Hm Hr HQ HdQ HQP.
  assert (HP : 0 < P) by lia.
  assert (HPP : 0 < P * P) by nia.
  assert (HtQ : t < Q).
  { destruct (Z.lt_ge_cases t Q) as [L|L]; [exact L|].
    assert (Q * Q <= t * t) by (apply Z.mul_le_mono_nonneg; lia). lia. }
  assert (Hlo : t * t * (P * P) <= d * (P * P))
    by (apply Z.mul_le_mono_nonneg_r; lia).
  assert (Hhi : (d + 1) * (P * P) <= (t + 1) * (t + 1) * (P * P))
    by (apply Z.mul_le_mono_nonneg_r; lia).
  assert (H1 : t * P <= q).
  { destruct (Z.le_gt_cases (t * P) q) as [L|L]; [exact L|].
    assert ((q + 1) * (q + 1) <= (t * P) * (t * P))
      by (apply Z.mul_le_mono_nonneg; lia).
    lia. }
  assert (H3 : q + 1 < (t + 1) * P).
  { destruct (Z.lt_ge_cases (q + 1) ((t + 1) * P)) as [L|L]; [exact L|].
    assert (0 <= (t + 1) * P - 1) by nia.
    assert (((t + 1) * P - 1) * ((t + 1) * P - 1) <= q * q)
      by (apply Z.mul_le_mono_nonneg; lia).
    assert ((t + 1) * P <= Q * P) by (apply Z.mul_le_mono_nonneg_r; lia).
    assert (2 * (t + 1) * P <= 2 * Q * P) by lia.
    assert (2 * Q * P < P * P) by (apply Z.mul_lt_mono_pos_r; lia).
    lia. }
  split; [exact H1|]. split; [exact H3|].
  assert ((t + 1) * P <= Q * P) by (apply Z.mul_le_mono_nonneg_r; lia). lia.
Qed.

Lemma sqrt_int_pos p :
  Z.pos p < 2 ^ 31 ->
  int_of_double (sqrt (double_of_int (Z.pos p))) = Some (Z.sqrt (Z.pos p)).
Proof.
  intros Hp.
  destruct (double_of_int_pos p ltac:(lia)) as (m & -> & Hm).
  pose proof (digits2_bounds p) as B.
  pose proof (digits2_bounds m) as Bm.
  set (k := Z.pos (digits2_pos p)) in *.
  assert (Hk : 1 <= k <= 31).
  { split; [unfold k; lia|]. destruct (Z.leb_spec k 31); [assumption|].
    assert (2 ^ 31 <= 2 ^ (k - 1)) by (apply Z.pow_le_mono_r; lia). lia. }
  assert (Hdm : Z.pos (digits2_pos m) = 53).
  { apply digits2_unique. rewrite Hm.
    replace (2 ^ (53 - 1)) with (2 ^ (k - 1) * 2 ^ (53 - k))
      by (rewrite <- Z.pow_add_r by lia; f_equal; lia).
    replace (2 ^ 53) with (2 ^ k * 2 ^ (53 - k))
      by (rewrite <- Z.pow_add_r by lia; f_equal; lia).
    assert (0 < 2 ^ (53 - k)) by (apply Z.pow_pos_nonneg; lia). nia. }
  rewrite Hdm in Bm.
  set (h := (k + 1) / 2).
  assert (Hh : k <= 2 * h <= k + 1)
    by (unfold h; pose proof (Z.div_mod (k + 1) 2 ltac:(lia));
        pose proof (Z.mod_pos_bound (k + 1) 2 ltac:(lia)); lia).
  set (P := 2 ^ (53 - h)). set (Q := 2 ^ h).
  assert (HQ : 0 < Q) by (apply Z.pow_pos_nonneg; lia).
  assert (HQ16 : Q <= 2 ^ 16) by (apply Z.pow_le_mono_r; lia).
  assert (HP37 : 2 ^ 37 <= P) by (apply Z.pow_le_mono_r; lia).
  assert (HQP : Q * P = 2 ^ 53)
    by (unfold Q, P; rewrite <- Z.pow_add_r by lia; f_equal; lia).
  assert (HdQ : Z.pos p < Q * Q).
  { assert (2 ^ k <= 2 ^ (h + h)) by (apply Z.pow_le_mono_r; lia).
    unfold Q. rewrite <- Z.pow_add_r by lia. lia. }
  unfold sqrt, SFsqrt, SFsqrt_core_binary, Zdigits2. rewrite Hdm.
  replace (Z.min (fexp 53 1024 (Z.div2 (53 + (k - 53) + 1))) (Z.div2 (k - 53)))
    with (h - 53)
    by (rewrite !Z.div2_div; unfold fexp, emin;
        replace (53 + (k - 53) + 1) with (k + 1) by lia; fold h;
        pose proof (Z.div_mod (k - 53) 2 ltac:(lia));
        pose proof (Z.mod_pos_bound (k - 53) 2 ltac:(lia)); lia).
  destruct (k - 53 - 2 * (h - 53)) as [|s|s] eqn:Es; try lia.
  rewrite Z.shiftl_mul_pow2 by lia.
  assert (Hm' : Z.pos m * 2 ^ Z.pos s = Z.pos p * P * P).
  { rewrite Hm. unfold P. rewrite <- !Z.mul_assoc, <- !Z.pow_add_r by lia.
    do 2 f_equal. lia. }
  assert (Hbig : 2 ^ 52 * 2 ^ 52 <= Z.pos m * 2 ^ Z.pos s).
  { assert (2 ^ 52 <= 2 ^ Z.pos s) by (apply Z.pow_le_mono_r; lia).
    apply Z.mul_le_mono_nonneg; lia. }
  pose proof (Z.sqrtrem_spec (Z.pos m * 2 ^ Z.pos s) ltac:(lia)) as Hs.
  destruct (Z.sqrtrem (Z.pos m * 2 ^ Z.pos s)) as [q r]. destruct Hs as [Hqr Hr].
  pose proof (Z.sqrt_spec (Z.pos p) ltac:(lia)) as Ht. cbv zeta in Ht.
  pose proof (Z.sqrt_nonneg (Z.pos p)) as Ht0.
  set (t := Z.sqrt (Z.pos p)) in *.
  assert (Hq0 : 0 <= q) by lia.
  destruct (scaled_sqrt_bracket (Z.pos p) t q r P Q Ht0 ltac:(lia) Hq0
              ltac:(lia) Hr HQ HdQ ltac:(lia)) as (Hlo & Hhi & Htop).
  assert (Hq52 : 2 ^ 52 <= q).
  { destruct (Z.le_gt_cases (2 ^ 52) q) as [L|L]; [exact L|].
    assert ((q + 1) * (q + 1) <= 2 ^ 52 * 2 ^ 52)
      by (apply Z.mul_le_mono_nonneg; lia).
    lia. }
  destruct q as [|qp|qp]; try lia.
  set (l := if r =? 0 then loc_Exact
            else loc_Inexact (if r <=? Z.pos qp then Lt else Gt)).
  assert (Hround : exists M, round_nearest_even (Z.pos qp) l = Z.pos M /\
                             Z.pos qp <= Z.pos M <= Z.pos qp + 1).
  { unfold l. destruct (r =? 0); [exists qp; simpl; lia|].
    destruct (r <=? Z.pos qp); [exists qp; simpl; lia|].
    exists (qp + 1)%positive. simpl. lia. }
  destruct Hround as (M & HM & HMq).
  assert (Hdq : Z.pos (digits2_pos qp) = 53) by (apply digits2_unique; lia).
  assert (HdM : Z.pos (digits2_pos M) = 53) by (apply digits2_unique; lia).
  rewrite (binary_round_aux_canonical qp (h - 53) l M Hdq ltac:(lia) HM HdM).
  unfold int_of_double. unfold cond_Zopp.
  replace (h - 53) with (- (53 - h)) by lia.
  replace (Z.shiftl (Z.pos M) (- (53 - h))) with (Z.shiftr (Z.pos M) (53 - h)) by reflexivity.
  rewrite Z.shiftr_div_pow2 by lia. fold P.
  replace (Z.pos M / P) with t
    by (apply (Z.div_unique _ _ _ (Z.pos M - P * t)); lia).
  assert (t < Q).
  { destruct (Z.lt_ge_cases t Q) as [L|L]; [exact L|].
    assert (Q * Q <= t * t) by (apply Z.mul_le_mono_nonneg; lia). lia. }
  replace (Int.min_signed <=? t) with true
    by (unfold Int.min_signed; lia).
  replace (t <=? Int.max_signed) with true
    by (unfold Int.max_signed; lia).
  reflexivity.
Qed.

Lemma sqrt_int d :
  0 <= d < 2 ^ 31 ->
  int_of_double (sqrt (double_of_int d)) = Some (Z.sqrt d).
Proof.
  intros Hd. destruct d as [|p|p]; [reflexivity|apply sqrt_int_pos; lia|lia].
Qed.

(** C8. For a file that can be opened and sought, of [S] bytes with
    [0 <= S < 2^31], [GetMatrixDimension] returns the integer square root of
    [S / 4] and leaves the world as it was; for a file of [N * N] four-byte
    integers it returns [N]. *)
Theorem GetMatrixDimension_isqrt fs filenameStr f w :
  fs filenameStr = Some f -> seekable f = true -> 0 <= tell_end f < 2 ^ 31 ->
  GetMatrixDimension fs filenameStr w = Returned (Z.sqrt (tell_end f / 4)) w /\
  (forall N, 0 <= N -> tell_end f = 4 * (N * N) ->
     GetMatrixDimension fs filenameStr w = Returned N w).
Proof.
  intros Hf Hs HS.
  assert (E : GetMatrixDimension fs filenameStr w
              = Returned (Z.sqrt (tell_end f / 4)) w).
  { unfold GetMatrixDimension. rewrite Hf, Hs. cbn [negb].
    rewrite wrap_in_range by (int_bounds; lia).
    replace (tell_end f =? -1) with false by lia.
    rewrite Z.quot_div_nonneg by lia.
    assert (0 <= tell_end f / 4 <= tell_end f)
      by (split; [apply Z.div_pos; lia|apply Z.div_le_upper_bound; lia]).
    rewrite sqrt_int by lia. reflexivity. }
  split; [exact E|].
  intros N HN HSN. rewrite E, HSN.
  replace (4 * (N * N) / 4) with (N * N)
    by (apply Z.div_unique_exact; lia).
  now rewrite Z.sqrt_square.
Qed.

Lemma GetMatrixDimension_isqrt_witness :
  GetMatrixDimension (fun _ => Some (mkFile true 67 (fun _ _ => []))) "m"
    (mkWorld [] "" [])
  = Returned 4 (mkWorld [] "" []).
Proof.
  refine (proj1 (GetMatrixDimension_isqrt
                   (fun _ => Some (mkFile true 67 (fun _ _ => []))) "m"
                   (mkFile true 67 (fun _ _ => [])) (mkWorld [] "" [])
                   _ _ _));
    [reflexivity|reflexivity|simpl; lia].
Defined.

(* ================================================================== *)
(** ** The argument check *)

(** C2. The thread count [-3] is not an integer above zero, yet the argument
    check lets it through: [ProcessArguments] returns with nothing printed,
    and [main] goes on to open the file, read the matrix, run an empty thread
    loop, print the whole matrix and return 0.  In the earlier revision
    [main] returns 0 as well, both for these arguments and when arguments are
    missing. *)
Theorem main_accepts_negative_thread_count :
  let argv := ["convolution"; "m"; "1"; "-3"] in
  let fs : filesystem := fun name =>
    if String.eqb name "m"
    then Some (mkFile true 16 (fun _ n => if n =? 1 then [1; 2] else [3; 4]))
    else None in
  let w := mkWorld [] "" [] in
  ProcessArguments argv w = Returned ("m", 1, -3) w /\
  main fs argv w
  = Returned 0
      (mkWorld []
         (endl ++ "file: m depth: 1 threads: -3" ++ endl
          ++ "Matrix dimension for 'm' was 2" ++ endl
          ++ "Reading matrix from file 'm'" ++ endl
          ++ "Whole Matrix" ++ endl
          ++ "1" ++ tab ++ "2" ++ tab ++ endl
          ++ "3" ++ tab ++ "4" ++ tab ++ endl)
         [(0, 0); (0, 1); (1, 0); (1, 1)]) /\
  ArgsOnly.main argv w
  = Returned 0 (mkWorld [] ("file: m depth: 1 threads: -3" ++ endl) []) /\
  ArgsOnly.main ["convolution"] w
  = Returned 0
      (mkWorld []
         ("[ERROR] Invalid number of arguments given." ++ endl
          ++ "Usage:" ++ endl
          ++ tab ++ "convolution [matrixFile] [filterDepth] [numThreads]" ++ endl
          ++ endl ++ "Program exiting..." ++ endl)
         []).
Proof.
  repeat split; vm_compute; reflexivity.
Qed.

(* ================================================================== *)
(** ** ProcessArguments in full *)

Lemma writes_then_exit {A} s status w :
  (write s ;; @exit A status) w = Exited status (emit w s []).
Proof. unfold bind. now rewrite write_emit. Qed.

Lemma write_write {A} s1 s2 (k : prog A) w :
  (write s1 ;; write s2 ;; k) w = (write (s1 ++ s2) ;; k) w.
Proof.
  unfold bind. rewrite !write_emit, emit_emit. reflexivity.
Qed.

Lemma ProcessArguments_missing argv w :
  Z.of_nat (List.length argv) < 4 ->
  ProcessArguments argv w = Exited EXIT_FAILURE (emit w missing_arguments_text []).
Proof.
  intros H. unfold ProcessArguments.
  replace (Z.of_nat (List.length argv) <? 4) with true by lia.
  rewrite !write_write, writes_then_exit. reflexivity.
Qed.

Lemma ProcessArguments_invalid argv w :
  4 <= Z.of_nat (List.length argv) ->
  atoi (nth 2 argv "") = 0 \/ atoi (nth 3 argv "") = 0 ->
  ProcessArguments argv w = Exited EXIT_FAILURE (emit w invalid_values_text []).
Proof.
  intros H H0. unfold ProcessArguments.
  replace (Z.of_nat (List.length argv) <? 4) with false by lia.
  replace ((atoi (nth 2 argv "") =? 0) || (atoi (nth 3 argv "") =? 0)) with true
    by (symmetry; apply orb_true_iff; lia).
  rewrite !write_write, writes_then_exit. reflexivity.
Qed.

Lemma ProcessArguments_valid argv w :
  accepted argv ->
  ProcessArguments argv w
  = Returned (nth 1 argv "", atoi (nth 2 argv ""), atoi (nth 3 argv "")) w.
Proof.
  intros (H & H2 & H3). unfold ProcessArguments.
  replace (Z.of_nat (List.length argv) <? 4) with false by lia.
  replace ((atoi (nth 2 argv "") =? 0) || (atoi (nth 3 argv "") =? 0)) with false
    by (symmetry; apply orb_false_iff; lia).
  reflexivity.
Qed.

Lemma atoi_in_range s : Int.in_range (atoi s).
Proof.
  unfold atoi, Int.wrap, Int.in_range, Int.min_signed, Int.max_signed, Int.modulus.
  pose proof (Z.mod_pos_bound (strtol s + 2 ^ 31) (2 ^ 32) ltac:(lia)). lia.
Qed.

Lemma GetMatrixWork_nonzero_threads N T tid :
  T <> 0 -> exists r, GetMatrixWork N T tid = Some r.
Proof.
  intros HT. unfold GetMatrixWork.
  destruct (T >=? N).
  - destruct (tid >=? N); eauto.
  - replace (T =? 0) with false by lia. destruct (tid >=? N); eauto.
Qed.

(** X1. Arguments that fail the check end the program at once: when fewer
    than three arguments are given, or [atoi] reads 0 for the depth or the
    thread count, [main] exits with [EXIT_FAILURE] after printing the
    matching usage text and nothing else, whatever the files are; the matrix
    and the read log are untouched. *)
Theorem main_rejects_bad_arguments fs argv w :
  ~ accepted argv ->
  main fs argv w
  = Exited EXIT_FAILURE
      (emit w (if Z.of_nat (List.length argv) <? 4
               then missing_arguments_text else invalid_values_text) []).
Proof.
  intros Hbad. unfold main, bind at 1.
  destruct (Z.ltb_spec (Z.of_nat (List.length argv)) 4) as [L|L].
  - now rewrite ProcessArguments_missing.
  - rewrite ProcessArguments_invalid; [reflexivity|exact L|].
    unfold accepted in Hbad. lia.
Qed.

Lemma main_rejects_bad_arguments_witness :
  main (fun _ => None) ["convolution"; "m"; "three"; "2"] (mkWorld [] "" [])
  = Exited 1 (mkWorld [] invalid_values_text []).
Proof.
  apply (main_rejects_bad_arguments (fun _ => None)
           ["convolution"; "m"; "three"; "2"] (mkWorld [] "" [])).
  unfold not, accepted. intros (_ & H & _). apply H. reflexivity.
Defined.

(** X2. [ProcessArguments] returns exactly when at least three arguments are
    given and [atoi] reads a non-zero value for both the depth and the thread
    count; it then has printed nothing and hands back the file name and the
    two numbers as [atoi] reads them.  Arguments after the third are
    ignored. *)
Theorem ProcessArguments_returns_iff argv w r w' :
  ProcessArguments argv w = Returned r w' <->
  accepted argv /\
  r = (nth 1 argv "", atoi (nth 2 argv ""), atoi (nth 3 argv "")) /\ w' = w.
Proof.
  split.
  - intros H.
    assert (Hacc : accepted argv).
    { unfold accepted.
      destruct (Z.ltb_spec (Z.of_nat (List.length argv)) 4) as [L|L].
      - rewrite ProcessArguments_missing in H by exact L. discriminate H.
      - destruct (Z.eq_dec (atoi (nth 2 argv "")) 0) as [E2|E2].
        + rewrite ProcessArguments_invalid in H by auto. discriminate H.
        + destruct (Z.eq_dec (atoi (nth 3 argv "")) 0) as [E3|E3].
          * rewrite ProcessArguments_invalid in H by auto. discriminate H.
          * auto. }
    rewrite (ProcessArguments_valid argv w Hacc) in H.
    injection H as <- <-. auto.
  - intros (Hacc & -> & ->). now apply ProcessArguments_valid.
Qed.

(** X3. Whatever [ProcessArguments] returns, the depth and the thread count
    are non-zero [int]s; so [GetMatrixWork], which divides by the thread
    count, returns for every dimension and thread index that [main] can give
    it. *)
Theorem ProcessArguments_thread_count_nonzero argv w file_ dpth nTh w' :
  ProcessArguments argv w = Returned (file_, dpth, nTh) w' ->
  dpth <> 0 /\ nTh <> 0 /\ Int.in_range dpth /\ Int.in_range nTh /\
  forall matrixDim tid, exists r, GetMatrixWork matrixDim nTh tid = Some r.
Proof.
  intros H. apply ProcessArguments_returns_iff in H.
  destruct H as ((_ & H2 & H3) & [= -> -> ->] & _).
  split; [exact H2|]. split; [exact H3|].
  split; [apply atoi_in_range|]. split; [apply atoi_in_range|].
  intros matrixDim tid. now apply GetMatrixWork_nonzero_threads.
Qed.

Lemma ProcessArguments_thread_count_nonzero_witness :
  7 <> 0 /\ -2 <> 0 /\ Int.in_range 7 /\ Int.in_range (-2) /\
  forall matrixDim tid, exists r, GetMatrixWork matrixDim (-2) tid = Some r.
Proof.
  apply (ProcessArguments_thread_count_nonzero
           ["convolution"; "m"; "7"; "-2"; "extra"] (mkWorld [] "" [])
           "m" 7 (-2) (mkWorld [] "" [])).
  reflexivity.
Defined.

(* ================================================================== *)
(** ** The earlier revision *)

Lemma writes_then_ret {A} s (a : A) w :
  (write s ;; ret a) w = Returned a (emit w s []).
Proof. unfold bind. now rewrite write_emit. Qed.

Lemma ArgsOnly_ProcessArguments_cases argv w :
  ArgsOnly.ProcessArguments argv w
  = if Z.of_nat (List.length argv) <? 4
    then Returned (1, None) (emit w missing_arguments_text [])
    else if (atoi (nth 2 argv "") =? 0) || (atoi (nth 3 argv "") =? 0)
    then Returned (1, None) (emit w invalid_values_text [])
    else Returned (0, Some (nth 1 argv "", atoi (nth 2 argv ""),
                            atoi (nth 3 argv ""))) w.
Proof.
  unfold ArgsOnly.ProcessArguments.
  destruct (Z.of_nat (List.length argv) <? 4).
  - rewrite !write_write, writes_then_ret. reflexivity.
  - destruct ((atoi (nth 2 argv "") =? 0) || (atoi (nth 3 argv "") =? 0)).
    + rewrite !write_write, writes_then_ret. reflexivity.
    + reflexivity.
Qed.

(** X4. The two revisions of [ProcessArguments] decide alike and print
    alike: where the later one returns a triple, the earlier one returns
    status 0 with the same triple and prints nothing; where the later one
    exits with [EXIT_FAILURE], the earlier one returns status 1 after the
    same output. *)
Theorem ProcessArguments_revisions_agree argv w :
  match ProcessArguments argv w with
  | Returned r w' => ArgsOnly.ProcessArguments argv w = Returned (0, Some r) w'
  | Exited status w' =>
      status = EXIT_FAILURE /\
      ArgsOnly.ProcessArguments argv w = Returned (1, None) w'
  | Trapped _ => False
  end.
Proof.
  rewrite ArgsOnly_ProcessArguments_cases.
  destruct (Z.ltb_spec (Z.of_nat (List.length argv)) 4) as [L|L].
  - rewrite ProcessArguments_missing by exact L. auto.
  - destruct ((atoi (nth 2 argv "") =? 0) || (atoi (nth 3 argv "") =? 0)) eqn:E.
    + apply orb_true_iff in E. rewrite ProcessArguments_invalid by lia. auto.
    + apply orb_false_iff in E. rewrite ProcessArguments_valid; [reflexivity|].
      unfold accepted. lia.
Qed.

(** X5. In the earlier revision [main] returns 0 for every argument list:
    after the two-part summary line when the arguments pass the check, and
    after the usage text followed by the line "Program exiting..." when they
    do not.  It never touches the matrix or the read log. *)
Theorem ArgsOnly_main_returns_zero argv w :
  ArgsOnly.main argv w
  = Returned 0
      (emit w
         (if Z.of_nat (List.length argv) <? 4
          then missing_arguments_text ++ endl ++ "Program exiting..." ++ endl
          else if (atoi (nth 2 argv "") =? 0) || (atoi (nth 3 argv "") =? 0)
          then invalid_values_text ++ endl ++ "Program exiting..." ++ endl
          else "file: " ++ nth 1 argv "" ++ " depth: "
               ++ show_int (atoi (nth 2 argv "")) ++ " threads: "
               ++ show_int (atoi (nth 3 argv "")) ++ endl)
         []).
Proof.
  unfold ArgsOnly.main, bind at 1. rewrite ArgsOnly_ProcessArguments_cases.
  destruct (Z.of_nat (List.length argv) <? 4).
  - rewrite writes_then_ret, emit_emit. reflexivity.
  - destruct ((atoi (nth 2 argv "") =? 0) || (atoi (nth 3 argv "") =? 0)).
    + rewrite writes_then_ret, emit_emit. reflexivity.
    + rewrite write_write, writes_then_ret. do 2 f_equal.
      now rewrite !append_assoc.
Qed.

(* ================================================================== *)
(** ** GetMatrixDimension: errors and large files *)

Lemma binary_round_aux_negative m e :
  Z.pos (digits2_pos m) = 53 -> -1074 <= e <= 971 ->
  binary_round_aux 53 1024 true (Z.pos m) e loc_Exact = S754_finite true m e.
Proof.
  intros Hd He. unfold binary_round_aux.
  rewrite (shr_fexp_canonical m e loc_Exact Hd) by lia.
  cbn [shr_record_of_loc shr_m loc_of_shr_record round_nearest_even].
  rewrite (shr_fexp_canonical m e loc_Exact Hd) by lia.
  cbn [shr_record_of_loc shr_m].
  replace (e <=? 1024 - 53) with true by lia. reflexivity.
Qed.

Lemma double_of_int_neg p :
  Z.pos p < 2 ^ 53 ->
  exists m e, double_of_int (Z.neg p) = S754_finite true m e.
Proof.
  intros Hp. pose proof (digits2_bounds p) as B.
  set (k := Z.pos (digits2_pos p)) in *.
  assert (Hk : 0 < k <= 53).
  { split; [unfold k; lia|]. destruct (Z.leb_spec k 53); [assumption|].
    assert (2 ^ 53 <= 2 ^ (k - 1)) by (apply Z.pow_le_mono_r; lia). lia. }
  unfold double_of_int, binary_normalize, binary_round. fold k.
  replace (fexp 53 1024 (k + 0)) with (k - 53) by (unfold fexp, emin; lia).
  destruct (shl_align_pow p 0 (k - 53) ltac:(lia)) as (mz & -> & Hmz).
  replace (0 - (k - 53)) with (53 - k) in Hmz by lia.
  exists mz, (k - 53).
  apply binary_round_aux_negative; [|lia].
  apply digits2_unique. rewrite Hmz.
  replace (2 ^ (53 - 1)) with (2 ^ (k - 1) * 2 ^ (53 - k))
    by (rewrite <- Z.pow_add_r by lia; f_equal; lia).
  replace (2 ^ 53) with (2 ^ k * 2 ^ (53 - k))
    by (rewrite <- Z.pow_add_r by lia; f_equal; lia).
  assert (0 < 2 ^ (53 - k)) by (apply Z.pow_pos_nonneg; lia). nia.
Qed.

(** The root of a negative [int] is a NaN, which no [int] holds. *)
Lemma sqrt_int_negative d :
  - 2 ^ 31 <= d < 0 -> int_of_double (sqrt (double_of_int d)) = None.
Proof.
  intros Hd. destruct d as [|p|p]; try lia.
  destruct (double_of_int_neg p ltac:(lia)) as (m & e & ->). reflexivity.
Qed.

Lemma GetMatrixDimension_value fs filenameStr f w :
  fs filenameStr = Some f -> seekable f = true -> 0 <= tell_end f < 2 ^ 31 ->
  GetMatrixDimension fs filenameStr w = Returned (Z.sqrt (tell_end f / 4)) w.
Proof.
  intros Hf Hs HS.
  unfold GetMatrixDimension. rewrite Hf, Hs. cbn [negb].
  rewrite wrap_in_range by (int_bounds; lia).
  replace (tell_end f =? -1) with false by lia.
  rewrite Z.quot_div_nonneg by lia.
  assert (0 <= tell_end f / 4 <= tell_end f)
    by (split; [apply Z.div_pos; lia|apply Z.div_le_upper_bound; lia]).
  rewrite sqrt_int by lia. reflexivity.
Qed.

(** X6. [GetMatrixDimension] ends the program with status 1 after one error
    line when the file cannot be opened, when seeking to its end fails, or
    when the position that [ftell] reports reads as -1 once stored in an
    [int] (a failed [ftell], but also a file of 4294967295 bytes). *)
Theorem GetMatrixDimension_errors fs filenameStr w :
  (fs filenameStr = None ->
   GetMatrixDimension fs filenameStr w
   = Exited 1 (emit w ("[ERROR] Could not open file '" ++ filenameStr
                       ++ "'" ++ endl) [])) /\
  (forall f, fs filenameStr = Some f ->
     seekable f = false \/ Int.wrap (tell_end f) = -1 ->
     GetMatrixDimension fs filenameStr w
     = Exited 1 (emit w ("[ERROR] Could not get dimension for file '"
                         ++ filenameStr ++ "'" ++ endl) [])).
Proof.
  split.
  - intros Hf. unfold GetMatrixDimension. rewrite Hf.
    now rewrite writes_then_exit.
  - intros f Hf H. unfold GetMatrixDimension. rewrite Hf.
    destruct (seekable f); cbn [negb].
    + destruct H as [H|H]; [discriminate H|]. rewrite H, Z.eqb_refl.
      now rewrite writes_then_exit.
    + now rewrite writes_then_exit.
Qed.

Lemma GetMatrixDimension_errors_witness :
  GetMatrixDimension
    (fun _ => Some (mkFile true 4294967295 (fun _ _ => []))) "big"
    (mkWorld [] "" [])
  = Exited 1 (mkWorld [] ("[ERROR] Could not get dimension for file 'big'"
                           ++ endl) []).
Proof.
  refine (proj2 (GetMatrixDimension_errors
                   (fun _ => Some (mkFile true 4294967295 (fun _ _ => [])))
                   "big" (mkWorld [] "" []))
            (mkFile true 4294967295 (fun _ _ => [])) _ _);
    [reflexivity|right; reflexivity].
Defined.

(** X7. A file of 2 GB or more is not handled: when its size [S] satisfies
    [2^31 <= S <= 2^32 - 4], the size stored in an [int] is negative, so is
    the quotient by 4, its square root is a NaN, and the conversion of that
    NaN to the [int] result is undefined. *)
Theorem GetMatrixDimension_large_file fs filenameStr f w :
  fs filenameStr = Some f -> seekable f = true ->
  2 ^ 31 <= tell_end f <= 2 ^ 32 - 4 ->
  GetMatrixDimension fs filenameStr w = Trapped w.
Proof.
  intros Hf Hs HS.
  unfold GetMatrixDimension. rewrite Hf, Hs. cbn [negb].
  assert (Hw : Int.wrap (tell_end f) = tell_end f - 2 ^ 32).
  { unfold Int.wrap, Int.modulus.
    replace (tell_end f + 2 ^ 31) with (tell_end f - 2 ^ 31 + 1 * 2 ^ 32) by lia.
    rewrite Z.mod_add by lia. rewrite Z.mod_small by lia. lia. }
  rewrite Hw. replace (tell_end f - 2 ^ 32 =? -1) with false by lia.
  replace (tell_end f - 2 ^ 32) with (- (2 ^ 32 - tell_end f)) by lia.
  rewrite Z.quot_opp_l by lia.
  rewrite Z.quot_div_nonneg by lia.
  assert (1 <= (2 ^ 32 - tell_end f) / 4 <= 2 ^ 29).
  { split; [apply Z.div_le_lower_bound; lia|apply Z.div_le_upper_bound; lia]. }
  rewrite sqrt_int_negative by lia. reflexivity.
Qed.

Lemma GetMatrixDimension_large_file_witness :
  GetMatrixDimension
    (fun _ => Some (mkFile true 2147483648 (fun _ _ => []))) "big"
    (mkWorld [] "" [])
  = Trapped (mkWorld [] "" []).
Proof.
  apply (GetMatrixDimension_large_file
           (fun _ => Some (mkFile true 2147483648 (fun _ _ => []))) "big"
           (mkFile true 2147483648 (fun _ _ => [])) (mkWorld [] "" []));
    [reflexivity|reflexivity|simpl; lia].
Defined.

(** X8. For a file below 2 GB the dimension [d] that [GetMatrixDimension]
    returns is the largest one whose matrix of four-byte cells fits in the
    file: [4 * d * d <= S < 4 * (d + 1) * (d + 1)], with [0 <= d < 2^15]. *)
Theorem GetMatrixDimension_fits fs filenameStr f w :
  fs filenameStr = Some f -> seekable f = true -> 0 <= tell_end f < 2 ^ 31 ->
  exists d,
    GetMatrixDimension fs filenameStr w = Returned d w /\
    0 <= d < 2 ^ 15 /\
    4 * d * d <= tell_end f < 4 * (d + 1) * (d + 1).
Proof.
  intros Hf Hs HS. exists (Z.sqrt (tell_end f / 4)).
  split; [now apply GetMatrixDimension_value|].
  pose proof (Z.div_mod (tell_end f) 4 ltac:(lia)) as Hdm.
  pose proof (Z.mod_pos_bound (tell_end f) 4 ltac:(lia)) as Hmb.
  assert (Hq : 0 <= tell_end f / 4) by (apply Z.div_pos; lia).
  pose proof (Z.sqrt_spec (tell_end f / 4) Hq) as Hsq. cbv zeta in Hsq.
  pose proof (Z.sqrt_nonneg (tell_end f / 4)) as Hs0.
  revert Hsq Hs0. generalize (Z.sqrt (tell_end f / 4)). intros d Hsq Hs0.
  split; [|nia].
  split; [exact Hs0|].
  destruct (Z.lt_ge_cases d (2 ^ 15)) as [L|L]; [exact L|].
  assert (2 ^ 15 * 2 ^ 15 <= d * d) by (apply Z.mul_le_mono_nonneg; lia). lia.
Qed.

Lemma GetMatrixDimension_fits_witness :
  exists d,
    GetMatrixDimension (fun _ => Some (mkFile true 103 (fun _ _ => []))) "m"
      (mkWorld [] "" [])
    = Returned d (mkWorld [] "" []) /\
    0 <= d < 2 ^ 15 /\ 4 * d * d <= 103 < 4 * (d + 1) * (d + 1).
Proof.
  apply (GetMatrixDimension_fits
           (fun _ => Some (mkFile true 103 (fun _ _ => []))) "m"
           (mkFile true 103 (fun _ _ => [])) (mkWorld [] "" []));
    [reflexivity|reflexivity|simpl; lia].
Defined.

(* ================================================================== *)
(** ** PrettyPrintMatrix and the blocks of the threads *)

Lemma square_nonneg m N : square m N -> 0 <= N.
Proof. intros [H _]. lia. Qed.

(** X9. On a square matrix of dimension [matrixDim], [PrettyPrintMatrix]
    returns after reading every cell once, row after row and in column
    order, and printing every row as one line, each value followed by a tab;
    the matrix is left as it was. *)
Theorem PrettyPrintMatrix_prints_matrix matrixDim w :
  square (matrix_mem w) matrixDim ->
  PrettyPrintMatrix matrixDim w
  = Returned tt
      (emit w (rows_text (matrix_mem w))
              (cells_of matrixDim (zrange 0 (Z.to_nat matrixDim)))).
Proof.
  intros Hsq. pose proof Hsq as [Hlen _].
  unfold PrettyPrintMatrix. unfold for_range at 1. rewrite Z.sub_0_r.
  rewrite (print_rows (matrix_mem w) matrixDim Hsq); [|reflexivity|lia|simpl; lia].
  simpl skipn. rewrite firstn_all2 by lia. reflexivity.
Qed.

Lemma PrettyPrintMatrix_prints_matrix_witness :
  PrettyPrintMatrix 2 (mkWorld [[1; -2]; [30; 4]] "" [])
  = Returned tt
      (mkWorld [[1; -2]; [30; 4]]
         ("1" ++ tab ++ "-2" ++ tab ++ endl ++ "30" ++ tab ++ "4" ++ tab ++ endl)
         [(0, 0); (0, 1); (1, 0); (1, 1)]).
Proof.
  apply (PrettyPrintMatrix_prints_matrix 2 (mkWorld [[1; -2]; [30; 4]] "" [])).
  split; [reflexivity|]. simpl. intros r [<-|[<-|[]]]; reflexivity.
Defined.

Lemma firstn_plus {A} (l : list A) n1 n2 :
  firstn (n1 + n2) l = (firstn n1 l ++ firstn n2 (skipn n1 l))%list.
Proof.
  revert l. induction n1 as [|n1 IH]; intros l; [reflexivity|].
  destruct l as [|x l]; simpl.
  - now rewrite firstn_nil.
  - now rewrite IH.
Qed.

Lemma rows_between_app m a b c :
  0 <= a <= b -> b <= c ->
  (rows_between m a b ++ rows_between m b c)%list = rows_between m a c.
Proof.
  intros Hab Hbc. unfold rows_between.
  replace (Z.to_nat (c - a)) with (Z.to_nat (b - a) + Z.to_nat (c - b))%nat by lia.
  rewrite firstn_plus, skipn_skipn.
  do 3 f_equal. lia.
Qed.

Lemma thread_block_boundary m N T tid :
  1 <= N <= Int.max_signed -> 1 <= T <= Int.max_signed -> 0 <= tid < T ->
  thread_block m N T tid
  = rows_between m (boundary N T tid) (boundary N T (tid + 1)).
Proof.
  intros HN HT Htid.
  destruct (work_boundaries N T tid HN HT Htid) as (r & Hr & Hb0 & HbN & Hcase).
  unfold thread_block. rewrite Hr. destruct r as [start end_].
  destruct (no_work (start, end_)).
  - rewrite Hcase. unfold rows_between. now rewrite Z.sub_diag.
  - destruct Hcase as [[= -> ->] _]. reflexivity.
Qed.

Lemma thread_blocks_steps m N T :
  1 <= N <= Int.max_signed -> 1 <= T <= Int.max_signed ->
  forall n k, 0 <= k -> k + Z.of_nat n <= T ->
    flat_map (thread_block m N T) (zrange k n)
    = rows_between m (boundary N T k) (boundary N T (k + Z.of_nat n)).
Proof.
  intros HN HT. induction n as [|n IH]; intros k Hk HkT.
  - simpl. rewrite Z.add_0_r. unfold rows_between. now rewrite Z.sub_diag.
  - cbn [zrange flat_map]. rewrite IH by lia.
    rewrite (thread_block_boundary m N T k HN HT) by lia.
    destruct (work_boundaries N T k HN HT ltac:(lia)) as (_ & _ & Hb0 & _ & _).
    destruct HN as [HN1 HN2], HT as [HT1 HT2].
    pose proof (boundary_mono N T HN1 HN2 HT1 HT2 (k + 1) (k + Z.of_nat (S n))
                  ltac:(lia) ltac:(lia)).
    replace (k + 1 + Z.of_nat n) with (k + Z.of_nat (S n)) by lia.
    apply rows_between_app; lia.
Qed.

(** X10. The blocks of rows that [GetMatrixWork] gives to the threads
    [0 .. T - 1], put one after the other in thread order, are the matrix
    itself: no row is lost, repeated or reordered. *)
Theorem thread_blocks_are_the_matrix m N T :
  1 <= N <= Int.max_signed -> 1 <= T <= Int.max_signed -> square m N ->
  flat_map (thread_block m N T) (zrange 0 (Z.to_nat T)) = m.
Proof.
  intros HN HT [Hlen _].
  rewrite (thread_blocks_steps m N T HN HT) by lia.
  destruct HN as [HN1 HN2], HT as [HT1 HT2].
  rewrite (boundary_0 N T HN1 HN2 HT1 HT2).
  replace (0 + Z.of_nat (Z.to_nat T)) with T by lia.
  rewrite (boundary_T N T HN1 HN2 HT1 HT2).
  unfold rows_between. simpl skipn. apply firstn_all2. lia.
Qed.

Lemma thread_blocks_are_the_matrix_witness :
  flat_map (thread_block [[1; 2; 3]; [4; 5; 6]; [7; 8; 9]] 3 2) (zrange 0 2)
  = [[1; 2; 3]; [4; 5; 6]; [7; 8; 9]].
Proof.
  apply (thread_blocks_are_the_matrix [[1; 2; 3]; [4; 5; 6]; [7; 8; 9]] 3 2).
  - int_bounds; lia.
  - int_bounds; lia.
  - split; [reflexivity|]. simpl. intros r [<-|[<-|[<-|[]]]]; reflexivity.
Defined.

(** X11. A thread index that [GetMatrixWork] does not check can send
    [CalculateFilter] outside the matrix: for [T <= tid < N] with
    [N <= N/T * tid] (and products that fit in an [int]) the call prints its
    banner and then reads row [N/T * tid], which the matrix does not have. *)
Theorem CalculateFilter_stray_reads_outside N T tid w :
  1 <= T -> T <= tid < N -> N <= Int.max_signed ->
  N / T * (tid + 1) <= Int.max_signed -> N <= N / T * tid ->
  square (matrix_mem w) N ->
  CalculateFilter N T tid w
  = Trapped (emit w ("Thread " ++ show_int tid ++ " of " ++ show_int T ++ endl) [])
  /\ cell (matrix_mem w) (N / T * tid) 0 = None.
Proof.
  intros HT Htid HN Hfit Hout [Hlen Hrows].
  destruct (workload_bounds N T ltac:(lia) HN HT ltac:(lia) ltac:(lia))
    as (Hw & Hle & Heq & Hr).
  assert (Hcell : cell (matrix_mem w) (N / T * tid) 0 = None).
  { unfold cell. replace (N / T * tid <? 0) with false by lia. simpl.
    replace (nth_error (matrix_mem w) (Z.to_nat (N / T * tid))) with (@None (list Z));
      [reflexivity|].
    symmetry. apply nth_error_None. lia. }
  split; [|exact Hcell].
  unfold CalculateFilter. rewrite (stray_form N T tid HT Htid HN Hfit).
  replace (N / T * tid =? -1) with false by lia. cbn [andb].
  unfold bind at 1. rewrite write_emit.
  unfold for_range.
  replace (Z.to_nat (N / T * (tid + 1) - N / T * tid))
    with (S (Z.to_nat (N / T - 1))) by nia.
  replace (Z.to_nat (N - 0)) with (S (Z.to_nat (N - 1))) by lia.
  cbn [for_steps]. unfold bind, load.
  cbn [emit matrix_mem]. now rewrite Hcell.
Qed.

Lemma CalculateFilter_stray_reads_outside_witness :
  CalculateFilter 2 1 1 (mkWorld [[1; 2]; [3; 4]] "" [])
  = Trapped (mkWorld [[1; 2]; [3; 4]] ("Thread 1 of 1" ++ endl) [])
  /\ cell [[1; 2]; [3; 4]] 2 0 = None.
Proof.
  apply (CalculateFilter_stray_reads_outside 2 1 1
           (mkWorld [[1; 2]; [3; 4]] "" [])); try (int_bounds; simpl; lia).
  split; [reflexivity|]. simpl. intros r [<-|[<-|[]]]; reflexivity.
Defined.

(* ================================================================== *)
(** ** ReadMatrixFile and main *)

Lemma matrix_of_file_length f matDim :
  0 <= matDim -> Z.of_nat (List.length (matrix_of_file f matDim)) = matDim.
Proof.
  intros H. unfold matrix_of_file. rewrite length_map, length_seq. lia.
Qed.

Lemma matrix_of_file_square f matDim :
  0 <= matDim ->
  (forall n, Z.of_nat (List.length (get_row f matDim n)) = matDim) ->
  square (matrix_of_file f matDim) matDim.
Proof.
  intros H Hrows. split; [now apply matrix_of_file_length|].
  intros r Hr. unfold matrix_of_file in Hr. apply in_map_iff in Hr.
  destruct Hr as (i & <- & _). apply Hrows.
Qed.

Lemma ReadMatrixFile_opened fs filenameStr f matDim w :
  fs filenameStr = Some f -> 0 <= matDim ->
  ReadMatrixFile fs filenameStr matDim w
  = Returned tt
      (mkWorld (matrix_of_file f matDim)
         (stdout w ++ "Reading matrix from file '" ++ filenameStr ++ "'" ++ endl)
         (loads w)).
Proof.
  intros Hf HN. unfold ReadMatrixFile.
  replace (matDim <? 0) with false by lia.
  unfold bind. rewrite write_emit, Hf. unfold emit, matrix_of_file.
  cbn [matrix_mem stdout loads]. now rewrite app_nil_r.
Qed.

(** X12. [ReadMatrixFile] on a file that can be opened, for a dimension
    [matDim >= 0]: it prints one line and replaces the matrix by [matDim]
    rows, row [i] (counted from 0) being what [get_row] reads as row [i + 1]
    of the file; when [get_row] fills [matDim] cells per row the new matrix
    is square.  A file that cannot be opened ends the program with status 1
    after a second line, and the old matrix stays. *)
Theorem ReadMatrixFile_builds_matrix fs filenameStr matDim w :
  0 <= matDim ->
  match fs filenameStr with
  | Some f =>
      exists w',
        ReadMatrixFile fs filenameStr matDim w = Returned tt w' /\
        stdout w' = stdout w ++ "Reading matrix from file '" ++ filenameStr
                    ++ "'" ++ endl /\
        loads w' = loads w /\
        Z.of_nat (List.length (matrix_mem w')) = matDim /\
        (forall i, 0 <= i < matDim ->
           nth_error (matrix_mem w') (Z.to_nat i) = Some (get_row f matDim (i + 1))) /\
        ((forall n, Z.of_nat (List.length (get_row f matDim n)) = matDim) ->
         square (matrix_mem w') matDim)
  | None =>
      ReadMatrixFile fs filenameStr matDim w
      = Exited 1
          (emit w ("Reading matrix from file '" ++ filenameStr ++ "'" ++ endl
                   ++ "Failed to read file descriptor for " ++ filenameStr ++ endl)
                [])
  end.
Proof.
  intros HN. destruct (fs filenameStr) as [f|] eqn:Hf.
  - eexists. split; [apply (ReadMatrixFile_opened fs filenameStr f matDim w Hf HN)|].
    cbn [matrix_mem stdout loads].
    split; [reflexivity|]. split; [reflexivity|].
    split; [now apply matrix_of_file_length|].
    split; [|now apply matrix_of_file_square].
    intros i Hi. unfold matrix_of_file.
    rewrite nth_error_map, nth_error_seq.
    replace (Z.to_nat i <? Z.to_nat matDim)%nat with true
      by (symmetry; apply Nat.ltb_lt; lia).
    simpl. do 2 f_equal. lia.
  - unfold ReadMatrixFile. replace (matDim <? 0) with false by lia.
    unfold bind at 1. rewrite write_emit, Hf.
    rewrite writes_then_exit, emit_emit. do 2 f_equal.
    now rewrite !append_assoc.
Qed.

Lemma ReadMatrixFile_builds_matrix_witness :
  exists w',
    ReadMatrixFile
      (fun _ => Some (mkFile true 16 (fun _ n => [n; 10 * n]))) "m" 2
      (mkWorld [] "" []) = Returned tt w' /\
    stdout w' = "" ++ "Reading matrix from file '" ++ "m" ++ "'" ++ endl /\
    loads w' = [] /\
    Z.of_nat (List.length (matrix_mem w')) = 2 /\
    (forall i, 0 <= i < 2 ->
       nth_error (matrix_mem w') (Z.to_nat i) = Some [i + 1; 10 * (i + 1)]) /\
    ((forall n, Z.of_nat (List.length [n; 10 * n]) = 2) ->
     square (matrix_mem w') 2).
Proof.
  apply (ReadMatrixFile_builds_matrix
           (fun _ => Some (mkFile true 16 (fun _ n => [n; 10 * n]))) "m" 2
           (mkWorld [] "" [])).
  lia.
Defined.

(** [main] up to the point where the matrix has been read. *)
Lemma main_until_read fs argv f w :
  accepted argv ->
  fs (nth 1 argv "") = Some f -> seekable f = true -> 0 <= tell_end f < 2 ^ 31 ->
  main fs argv w
  = (main_distribute (Z.sqrt (tell_end f / 4)) (atoi (nth 3 argv "")) ;;
     write ("Whole Matrix" ++ endl) ;;
     PrettyPrintMatrix (Z.sqrt (tell_end f / 4)) ;;
     CleanupMatrix (Z.sqrt (tell_end f / 4)) ;;
     ret 0)
      (mkWorld (matrix_of_file f (Z.sqrt (tell_end f / 4)))
         (stdout w
          ++ (endl ++ "file: " ++ nth 1 argv "" ++ " depth: "
              ++ show_int (atoi (nth 2 argv "")) ++ " threads: "
              ++ show_int (atoi (nth 3 argv "")) ++ endl)
          ++ ("Matrix dimension for '" ++ nth 1 argv "" ++ "' was "
              ++ show_int (Z.sqrt (tell_end f / 4)) ++ endl)
          ++ ("Reading matrix from file '" ++ nth 1 argv "" ++ "'" ++ endl))
         (loads w)).
Proof.
  intros Hacc Hf Hs HS. unfold main.
  rewrite (bind_returned _ _ w _ w (ProcessArguments_valid argv w Hacc)).
  cbv iota beta.
  rewrite (bind_returned _ _ w tt _ (write_emit _ w)).
  rewrite (bind_returned _ _ _ _ _
             (GetMatrixDimension_value fs _ f _ Hf Hs HS)).
  rewrite (bind_returned _ _ _ tt _ (write_emit _ _)).
  rewrite (bind_returned _ _ _ tt _
             (ReadMatrixFile_opened fs _ f _ _ Hf (Z.sqrt_nonneg _))).
  unfold emit. cbn [matrix_mem stdout loads].
  rewrite !app_nil_r, !append_assoc. reflexivity.
Qed.

Lemma sqrt_quarter_bounds S :
  4 <= S < 2 ^ 31 -> 1 <= Z.sqrt (S / 4) <= Int.max_signed.
Proof.
  intros HS.
  assert (Hq : 1 <= S / 4 < 2 ^ 31)
    by (split; [apply Z.div_le_lower_bound; lia|apply Z.div_lt_upper_bound; lia]).
  pose proof (Z.sqrt_spec (S / 4) ltac:(lia)) as Hsq. cbv zeta in Hsq.
  pose proof (Z.sqrt_nonneg (S / 4)) as H0.
  revert Hsq H0. generalize (Z.sqrt (S / 4)). intros d Hsq H0.
  int_bounds. split; [nia|].
  destruct (Z.le_gt_cases d (2 ^ 31 - 1)) as [L|L]; [exact L|].
  assert (2 ^ 31 * 2 ^ 31 <= d * d) by (apply Z.mul_le_mono_nonneg; lia). lia.
Qed.

(** X13. A complete run.  With arguments that pass the check, a thread
    count of at least 1, and a file below 2 GB that holds at least one cell
    and from which [get_row] fills [N] cells per row ([N] the inferred
    dimension), [main] returns 0.  It has printed the summary line, the
    dimension, the reading notice, what the threads [0 .. T - 1] print, the
    line "Whole Matrix" and the whole matrix; it has read every cell twice,
    first in the thread loop and then for the final print, both times row
    after row; and the matrix has been freed. *)
Theorem main_complete_run fs argv f w :
  accepted argv -> 1 <= atoi (nth 3 argv "") ->
  fs (nth 1 argv "") = Some f -> seekable f = true -> 4 <= tell_end f < 2 ^ 31 ->
  let N := Z.sqrt (tell_end f / 4) in
  let T := atoi (nth 3 argv "") in
  let m := matrix_of_file f N in
  (forall n, Z.of_nat (List.length (get_row f N n)) = N) ->
  main fs argv w
  = Returned 0
      (mkWorld []
         (stdout w
          ++ (endl ++ "file: " ++ nth 1 argv "" ++ " depth: "
              ++ show_int (atoi (nth 2 argv "")) ++ " threads: "
              ++ show_int T ++ endl)
          ++ ("Matrix dimension for '" ++ nth 1 argv "" ++ "' was "
              ++ show_int N ++ endl)
          ++ ("Reading matrix from file '" ++ nth 1 argv "" ++ "'" ++ endl)
          ++ threads_text m N T (zrange 0 (Z.to_nat T))
          ++ ("Whole Matrix" ++ endl)
          ++ rows_text m)
         (loads w ++ cells_of N (zrange 0 (Z.to_nat N))
                  ++ cells_of N (zrange 0 (Z.to_nat N)))%list).
Proof.
  intros Hacc HT Hf Hs HS N T m Hrows.
  pose proof (sqrt_quarter_bounds (tell_end f) HS) as HN. fold N in HN.
  pose proof (atoi_in_range (nth 3 argv "")) as [_ HTmax]. fold T in HT, HTmax.
  assert (Hsq : square m N)
    by (apply matrix_of_file_square; [lia|exact Hrows]).
  rewrite (main_until_read fs argv f w Hacc Hf Hs ltac:(lia)).
  fold N T m. set (w0 := mkWorld m _ (loads w)).
  assert (Hw0 : matrix_mem w0 = m) by reflexivity.
  assert (Hdist : main_distribute N T w0
                  = Returned tt
                      (emit w0 (threads_text m N T (zrange 0 (Z.to_nat T)))
                               (cells_of N (zrange 0 (Z.to_nat N))))).
  { unfold main_distribute, for_range. rewrite Z.sub_0_r.
    rewrite (distribute_steps N T HN ltac:(lia) (Z.to_nat T) 0 w0);
      [|lia|lia|rewrite Hw0; exact Hsq].
    destruct HN as [HN1 HN2].
    rewrite (boundary_0 N T HN1 HN2 HT HTmax).
    replace (0 + Z.of_nat (Z.to_nat T)) with T by lia.
    rewrite (boundary_T N T HN1 HN2 HT HTmax), Z.sub_0_r, Hw0. reflexivity. }
  rewrite (bind_returned _ _ _ tt _ Hdist).
  rewrite (bind_returned _ _ _ tt _ (write_emit _ _)).
  set (w1 := emit (emit w0 _ _) _ _).
  assert (Hw1 : matrix_mem w1 = m) by reflexivity.
  assert (Hprint : PrettyPrintMatrix N w1
                   = Returned tt (emit w1 (rows_text m)
                                    (cells_of N (zrange 0 (Z.to_nat N))))).
  { destruct Hsq as [Hlen Hr]. unfold PrettyPrintMatrix. unfold for_range at 1.
    rewrite Z.sub_0_r.
    rewrite (print_rows m N (conj Hlen Hr)); [|exact Hw1|lia|simpl; lia].
    simpl skipn. rewrite firstn_all2 by lia. reflexivity. }
  rewrite (bind_returned _ _ _ tt _ Hprint).
  unfold bind, CleanupMatrix, ret, w1, w0, emit. cbn [matrix_mem stdout loads].
  rewrite !app_nil_r, !append_assoc, <- !app_assoc. reflexivity.
Qed.

Lemma main_complete_run_witness :
  main (fun _ => Some (mkFile true 16 (fun _ n => if n =? 1 then [1; 2] else [3; 4])))
       ["convolution"; "m"; "1"; "2"] (mkWorld [] "" [])
  = Returned 0
      (mkWorld []
         (endl ++ "file: m depth: 1 threads: 2" ++ endl
          ++ "Matrix dimension for 'm' was 2" ++ endl
          ++ "Reading matrix from file 'm'" ++ endl
          ++ "Thread 0 of 2" ++ endl ++ "1" ++ tab ++ "2" ++ tab ++ endl
          ++ "Thread 1 of 2" ++ endl ++ "3" ++ tab ++ "4" ++ tab ++ endl
          ++ "Whole Matrix" ++ endl
          ++ "1" ++ tab ++ "2" ++ tab ++ endl
          ++ "3" ++ tab ++ "4" ++ tab ++ endl)
         [(0, 0); (0, 1); (1, 0); (1, 1); (0, 0); (0, 1); (1, 0); (1, 1)]).
Proof.
  apply (main_complete_run
           (fun _ => Some (mkFile true 16
                             (fun _ n => if n =? 1 then [1; 2] else [3; 4])))
           ["convolution"; "m"; "1"; "2"]
           (mkFile true 16 (fun _ n => if n =? 1 then [1; 2] else [3; 4]))
           (mkWorld [] "" [])).
  - unfold accepted. repeat split; vm_compute; congruence.
  - vm_compute. congruence.
  - reflexivity.
  - reflexivity.
  - simpl. lia.
  - intros n. simpl. destruct (n =? 1); reflexivity.
Defined.

Lemma CalculateFilter_empty_matrix T tid w :
  0 <= tid -> T <> 0 -> CalculateFilter 0 T tid w = Returned tt w.
Proof.
  intros Htid HT. unfold CalculateFilter, GetMatrixWork.
  replace (tid >=? 0) with true by lia.
  destruct (T >=? 0); [reflexivity|].
  replace (T =? 0) with false by lia. reflexivity.
Qed.

Lemma main_distribute_empty_matrix T w :
  T <> 0 -> main_distribute 0 T w = Returned tt w.
Proof.
  intros HT. unfold main_distribute, for_range.
  assert (H : forall n k, 0 <= k ->
            for_steps n k (fun i => CalculateFilter 0 T i) w = Returned tt w).
  { induction n as [|n IH]; intros k Hk; [reflexivity|].
    cbn [for_steps].
    rewrite (bind_returned _ _ w tt w (CalculateFilter_empty_matrix T k w Hk HT)).
    apply IH. lia. }
  apply H. lia.
Qed.

(** X14. A file of fewer than four bytes gives dimension 0, and [main] runs
    through on it for any arguments that pass the check: no thread gets a
    row, no cell is read, the lines printed are the summary, the dimension 0,
    the reading notice and "Whole Matrix", and [main] returns 0. *)
Theorem main_empty_file fs argv f w :
  accepted argv ->
  fs (nth 1 argv "") = Some f -> seekable f = true -> 0 <= tell_end f < 4 ->
  main fs argv w
  = Returned 0
      (mkWorld []
         (stdout w
          ++ (endl ++ "file: " ++ nth 1 argv "" ++ " depth: "
              ++ show_int (atoi (nth 2 argv "")) ++ " threads: "
              ++ show_int (atoi (nth 3 argv "")) ++ endl)
          ++ ("Matrix dimension for '" ++ nth 1 argv "" ++ "' was 0" ++ endl)
          ++ ("Reading matrix from file '" ++ nth 1 argv "" ++ "'" ++ endl)
          ++ ("Whole Matrix" ++ endl))
         (loads w)).
Proof.
  intros Hacc Hf Hs HS.
  rewrite (main_until_read fs argv f w Hacc Hf Hs ltac:(lia)).
  replace (tell_end f / 4) with 0 by (symmetry; apply Z.div_small; lia).
  change (Z.sqrt 0) with 0.
  destruct Hacc as (_ & _ & HT).
  rewrite (bind_returned _ _ _ tt _ (main_distribute_empty_matrix _ _ HT)).
  rewrite (bind_returned _ _ _ tt _ (write_emit _ _)).
  unfold bind, PrettyPrintMatrix, for_range, CleanupMatrix, ret, emit.
  cbn [Z.sub Z.to_nat for_steps ret matrix_mem stdout loads].
  rewrite !app_nil_r, !append_assoc. reflexivity.
Qed.

Lemma main_empty_file_witness :
  main (fun _ => Some (mkFile true 3 (fun _ _ => [])))
       ["convolution"; "m"; "1"; "-3"] (mkWorld [] "" [])
  = Returned 0
      (mkWorld []
         (endl ++ "file: m depth: 1 threads: -3" ++ endl
          ++ "Matrix dimension for 'm' was 0" ++ endl
          ++ "Reading matrix from file 'm'" ++ endl
          ++ "Whole Matrix" ++ endl)
         []).
Proof.
  apply (main_empty_file (fun _ => Some (mkFile true 3 (fun _ _ => [])))
           ["convolution"; "m"; "1"; "-3"]
           (mkFile true 3 (fun _ _ => [])) (mkWorld [] "" [])).
  - unfold accepted. repeat split; vm_compute; congruence.
  - reflexivity.
  - reflexivity.
  - simpl. lia.
Defined.

Lemma PrettyPrintMatrix_square N w :
  square (matrix_mem w) N ->
  PrettyPrintMatrix N w
  = Returned tt (emit w (rows_text (matrix_mem w))
                        (cells_of N (zrange 0 (Z.to_nat N)))).
Proof.
  intros Hsq. pose proof Hsq as [Hlen _].
  unfold PrettyPrintMatrix. unfold for_range at 1. rewrite Z.sub_0_r.
  rewrite (print_rows (matrix_mem w) N Hsq); [|reflexivity|lia|simpl; lia].
  simpl skipn. rewrite firstn_all2 by lia. reflexivity.
Qed.

Lemma main_distribute_no_threads N T w :
  T <= 0 -> main_distribute N T w = Returned tt w.
Proof.
  intros HT. unfold main_distribute, for_range.
  replace (Z.to_nat (T - 0)) with O by lia. reflexivity.
Qed.

(** X15. A negative thread count passes the argument check and silently
    skips the thread loop: with such arguments and a file below 2 GB from
    which [get_row] fills [N] cells per row, [main] returns 0 having printed
    no thread banner and no thread rows, only the summary, the dimension, the
    reading notice and the whole matrix, whose cells it has read once. *)
Theorem main_negative_thread_count fs argv f w :
  accepted argv -> atoi (nth 3 argv "") < 0 ->
  fs (nth 1 argv "") = Some f -> seekable f = true -> 0 <= tell_end f < 2 ^ 31 ->
  let N := Z.sqrt (tell_end f / 4) in
  let m := matrix_of_file f N in
  (forall n, Z.of_nat (List.length (get_row f N n)) = N) ->
  main fs argv w
  = Returned 0
      (mkWorld []
         (stdout w
          ++ (endl ++ "file: " ++ nth 1 argv "" ++ " depth: "
              ++ show_int (atoi (nth 2 argv "")) ++ " threads: "
              ++ show_int (atoi (nth 3 argv "")) ++ endl)
          ++ ("Matrix dimension for '" ++ nth 1 argv "" ++ "' was "
              ++ show_int N ++ endl)
          ++ ("Reading matrix from file '" ++ nth 1 argv "" ++ "'" ++ endl)
          ++ ("Whole Matrix" ++ endl)
          ++ rows_text m)
         (loads w ++ cells_of N (zrange 0 (Z.to_nat N)))%list).
Proof.
  intros Hacc HT Hf Hs HS N m Hrows.
  assert (Hsq : square m N)
    by (apply matrix_of_file_square; [apply Z.sqrt_nonneg|exact Hrows]).
  rewrite (main_until_read fs argv f w Hacc Hf Hs HS). fold N m.
  assert (HT0 : atoi (nth 3 argv "") <= 0) by lia.
  rewrite (bind_returned _ _ _ tt _ (main_distribute_no_threads N _ _ HT0)).
  rewrite (bind_returned _ _ _ tt _ (write_emit _ _)).
  set (w1 := emit _ _ _).
  rewrite (bind_returned _ _ _ tt _ (PrettyPrintMatrix_square N w1 Hsq)).
  unfold bind, CleanupMatrix, ret, w1, emit. cbn [matrix_mem stdout loads].
  rewrite !app_nil_r, !append_assoc. reflexivity.
Qed.

Lemma main_negative_thread_count_witness :
  main (fun _ => Some (mkFile true 16 (fun _ n => if n =? 1 then [1; 2] else [3; 4])))
       ["convolution"; "m"; "1"; "-3"] (mkWorld [] "" [])
  = Returned 0
      (mkWorld []
         (endl ++ "file: m depth: 1 threads: -3" ++ endl
          ++ "Matrix dimension for 'm' was 2" ++ endl
          ++ "Reading matrix from file 'm'" ++ endl
          ++ "Whole Matrix" ++ endl
          ++ "1" ++ tab ++ "2" ++ tab ++ endl
          ++ "3" ++ tab ++ "4" ++ tab ++ endl)
         [(0, 0); (0, 1); (1, 0); (1, 1)]).
Proof.
  apply (main_negative_thread_count
           (fun _ => Some (mkFile true 16
                             (fun _ n => if n =? 1 then [1; 2] else [3; 4])))
           ["convolution"; "m"; "1"; "-3"]
           (mkFile true 16 (fun _ n => if n =? 1 then [1; 2] else [3; 4]))
           (mkWorld [] "" [])).
  - unfold accepted. repeat split; vm_compute; congruence.
  - vm_compute. reflexivity.
  - reflexivity.
  - reflexivity.
  - simpl. lia.
  - intros n. simpl. destruct (n =? 1); reflexivity.
Defined.

(* ================================================================== *)
(** ** Output is append-only *)

Lemma appends_ret {A} (a : A) w : exists s l, final_world (ret a w) = emit w s l.
Proof. exists "", []. simpl. now rewrite emit_nil. Qed.

Lemma appends_bind {A B} (m : prog A) (k : A -> prog B) :
  (forall w, exists s l, final_world (m w) = emit w s l) ->
  (forall a w, exists s l, final_world (k a w) = emit w s l) ->
  forall w, exists s l, final_world (bind m k w) = emit w s l.
Proof.
  intros Hm Hk w. unfold bind. destruct (Hm w) as (s & l & E).
  destruct (m w) as [a w'|st w'|w']; simpl in E; subst w'; simpl; eauto.
  destruct (Hk a (emit w s l)) as (s' & l' & E'). rewrite E', emit_emit. eauto.
Qed.

Lemma appends_write t w : exists s l, final_world (write t w) = emit w s l.
Proof. exists t, []. now rewrite write_emit. Qed.

Lemma appends_load row i w : exists s l, final_world (load row i w) = emit w s l.
Proof.
  unfold load. destruct (cell (matrix_mem w) row i) as [v|].
  - exists "", [(row, i)]. simpl. unfold emit. now rewrite append_nil_r.
  - exists "", []. simpl. now rewrite emit_nil.
Qed.

Lemma appends_for_steps n i body :
  (forall j w, exists s l, final_world (body j w) = emit w s l) ->
  forall w, exists s l, final_world (for_steps n i body w) = emit w s l.
Proof.
  intros Hb. revert i. induction n as [|n IH]; intros i.
  - apply appends_ret.
  - cbn [for_steps]. apply appends_bind; [apply Hb|intros _; apply IH].
Qed.

Lemma appends_print_row matrixDim row w :
  exists s l,
    final_world
      ((for_range 0 matrixDim (fun i => v <- load row i ;; write (show_int v ++ tab)) ;;
        write endl) w)
    = emit w s l.
Proof.
  revert w. apply appends_bind.
  - apply appends_for_steps. intros j.
    apply appends_bind; [apply appends_load|intros v; apply appends_write].
  - intros _. apply appends_write.
Qed.

Lemma appends_CalculateFilter matrixDim numT tid w :
  exists s l, final_world (CalculateFilter matrixDim numT tid w) = emit w s l.
Proof.
  revert w. unfold CalculateFilter.
  destruct (GetMatrixWork matrixDim numT tid) as [[start end_]|].
  - destruct ((start =? -1) && (end_ =? -1)); [apply appends_ret|].
    apply appends_bind; [apply appends_write|intros _].
    apply appends_for_steps. intros row. apply appends_print_row.
  - intros w. exists "", []. simpl. now rewrite emit_nil.
Qed.

(** X16. Whatever the dimension, the thread count and the matrix (square or
    not), and whether they return or run into a read outside the matrix, the
    thread loop of [main] and [PrettyPrintMatrix] only add to the output and
    to the read log: the matrix, the text printed before and the earlier
    reads are all kept. *)
Theorem output_is_append_only matrixDim numThreads w :
  (exists s l,
     final_world (main_distribute matrixDim numThreads w) = emit w s l) /\
  (exists s l, final_world (PrettyPrintMatrix matrixDim w) = emit w s l).
Proof.
  split.
  - revert w. apply appends_for_steps. intros j. apply appends_CalculateFilter.
  - revert w. apply appends_for_steps. intros row. apply appends_print_row.
Qed.

(* ================================================================== *)
(** ** The revisions in between *)

Lemma ArgsOnly_ProcessArguments_valid argv w :
  accepted argv ->
  ArgsOnly.ProcessArguments argv w
  = Returned (0, Some (nth 1 argv "", atoi (nth 2 argv ""),
                       atoi (nth 3 argv ""))) w.
Proof.
  intros (H & H2 & H3). rewrite ArgsOnly_ProcessArguments_cases.
  replace (Z.of_nat (List.length argv) <? 4) with false by lia.
  replace ((atoi (nth 2 argv "") =? 0) || (atoi (nth 3 argv "") =? 0)) with false
    by (symmetry; apply orb_false_iff; lia).
  reflexivity.
Qed.

Lemma DimensionOnly_main_summary fs argv w :
  accepted argv ->
  DimensionOnly.main fs argv w
  = (matrixDimension <- GetMatrixDimension fs (nth 1 argv "") ;;
     write ("Matrix dimension for '" ++ nth 1 argv "" ++ "' was "
            ++ show_int matrixDimension ++ endl) ;;
     ret 0)
      (emit w ("file: " ++ nth 1 argv "" ++ " depth: "
               ++ show_int (atoi (nth 2 argv "")) ++ " threads: "
               ++ show_int (atoi (nth 3 argv "")) ++ endl) []).
Proof.
  intros Hacc. unfold DimensionOnly.main.
  rewrite (bind_returned _ _ w _ w (ArgsOnly_ProcessArguments_valid argv w Hacc)).
  cbv iota beta. rewrite write_write.
  rewrite (bind_returned _ _ w tt _ (write_emit _ w)).
  now rewrite !append_assoc.
Qed.

(** X17. In the revision that only reports the dimension, [main] with
    arguments that pass the check prints the summary line and then hands over
    to [GetMatrixDimension]: for a file below 2 GB it prints the inferred
    dimension and returns 0; for a file that cannot be opened it ends with
    status 1 after the error line.  The matrix and the read log are never
    touched. *)
Theorem DimensionOnly_main_reports_dimension fs argv w :
  accepted argv ->
  match fs (nth 1 argv "") with
  | Some f =>
      seekable f = true -> 0 <= tell_end f < 2 ^ 31 ->
      DimensionOnly.main fs argv w
      = Returned 0
          (emit w (("file: " ++ nth 1 argv "" ++ " depth: "
                    ++ show_int (atoi (nth 2 argv "")) ++ " threads: "
                    ++ show_int (atoi (nth 3 argv "")) ++ endl)
                   ++ "Matrix dimension for '" ++ nth 1 argv ""
                   ++ "' was " ++ show_int (Z.sqrt (tell_end f / 4)) ++ endl) [])
  | None =>
      DimensionOnly.main fs argv w
      = Exited 1
          (emit w (("file: " ++ nth 1 argv "" ++ " depth: "
                    ++ show_int (atoi (nth 2 argv "")) ++ " threads: "
                    ++ show_int (atoi (nth 3 argv "")) ++ endl)
                   ++ "[ERROR] Could not open file '" ++ nth 1 argv ""
                   ++ "'" ++ endl) [])
  end.
Proof.
  intros Hacc. rewrite (DimensionOnly_main_summary fs argv w Hacc).
  destruct (fs (nth 1 argv "")) as [f|] eqn:Hf.
  - intros Hs HS.
    rewrite (bind_returned _ _ _ _ _
               (GetMatrixDimension_value fs _ f _ Hf Hs HS)).
    now rewrite writes_then_ret, emit_emit.
  - unfold bind at 1. unfold GetMatrixDimension. rewrite Hf.
    now rewrite writes_then_exit, emit_emit.
Qed.

Lemma DimensionOnly_main_reports_dimension_witness :
  DimensionOnly.main (fun _ => Some (mkFile true 36 (fun _ _ => [])))
    ["convolution"; "m"; "1"; "2"] (mkWorld [] "" [])
  = Returned 0
      (mkWorld []
         ("file: m depth: 1 threads: 2" ++ endl
          ++ "Matrix dimension for 'm' was 3" ++ endl) []).
Proof.
  refine (DimensionOnly_main_reports_dimension
            (fun _ => Some (mkFile true 36 (fun _ _ => [])))
            ["convolution"; "m"; "1"; "2"] (mkWorld [] "" []) _ _ _).
  - unfold accepted. repeat split; vm_compute; congruence.
  - reflexivity.
  - simpl. lia.
Defined.

Lemma PrintOnly_ReadMatrixFile_opened fs filenameStr f matDim w :
  fs filenameStr = Some f -> 0 <= matDim ->
  PrintOnly.ReadMatrixFile fs filenameStr matDim w
  = Returned tt
      (mkWorld (matrix_of_file f matDim)
         (stdout w ++ "Reading matrix from file " ++ filenameStr ++ endl)
         (loads w)).
Proof.
  intros Hf HN. unfold PrintOnly.ReadMatrixFile.
  replace (matDim <? 0) with false by lia.
  unfold bind. rewrite write_emit, Hf. unfold emit, matrix_of_file.
  cbn [matrix_mem stdout loads]. now rewrite app_nil_r.
Qed.

(** X18. In the revision that does not yet split the work, a complete run
    of [main] (arguments that pass the check, a file below 2 GB from which
    [get_row] fills [N] cells per row) returns 0 after printing the summary,
    the dimension, the reading notice and the whole matrix; every cell has
    been read once, the thread count plays no part, and the matrix has been
    freed. *)
Theorem PrintOnly_main_complete_run fs argv f w :
  accepted argv ->
  fs (nth 1 argv "") = Some f -> seekable f = true -> 0 <= tell_end f < 2 ^ 31 ->
  let N := Z.sqrt (tell_end f / 4) in
  let m := matrix_of_file f N in
  (forall n, Z.of_nat (List.length (get_row f N n)) = N) ->
  PrintOnly.main fs argv w
  = Returned 0
      (mkWorld []
         (stdout w
          ++ ("file: " ++ nth 1 argv "" ++ " depth: "
              ++ show_int (atoi (nth 2 argv "")) ++ " threads: "
              ++ show_int (atoi (nth 3 argv "")) ++ endl)
          ++ ("Matrix dimension for '" ++ nth 1 argv "" ++ "' was "
              ++ show_int N ++ endl)
          ++ ("Reading matrix from file " ++ nth 1 argv "" ++ endl)
          ++ rows_text m)
         (loads w ++ cells_of N (zrange 0 (Z.to_nat N)))%list).
Proof.
  intros Hacc Hf Hs HS N m Hrows.
  assert (Hsq : square m N)
    by (apply matrix_of_file_square; [apply Z.sqrt_nonneg|exact Hrows]).
  unfold PrintOnly.main.
  rewrite (bind_returned _ _ w _ w (ProcessArguments_valid argv w Hacc)).
  cbv iota beta.
  rewrite (bind_returned _ _ w tt _ (write_emit _ w)).
  rewrite (bind_returned _ _ _ _ _
             (GetMatrixDimension_value fs _ f _ Hf Hs HS)).
  rewrite (bind_returned _ _ _ tt _ (write_emit _ _)).
  rewrite (bind_returned _ _ _ tt _
             (PrintOnly_ReadMatrixFile_opened fs _ f _ _ Hf (Z.sqrt_nonneg _))).
  fold N m. set (w1 := mkWorld m _ _).
  rewrite (bind_returned _ _ _ tt _ (PrettyPrintMatrix_square N w1 Hsq)).
  unfold bind, CleanupMatrix, ret, w1, emit. cbn [matrix_mem stdout loads].
  rewrite !app_nil_r, !append_assoc. reflexivity.
Qed.

Lemma PrintOnly_main_complete_run_witness :
  PrintOnly.main
    (fun _ => Some (mkFile true 16 (fun _ n => if n =? 1 then [1; 2] else [3; 4])))
    ["convolution"; "m"; "1"; "2"] (mkWorld [] "" [])
  = Returned 0
      (mkWorld []
         ("file: m depth: 1 threads: 2" ++ endl
          ++ "Matrix dimension for 'm' was 2" ++ endl
          ++ "Reading matrix from file m" ++ endl
          ++ "1" ++ tab ++ "2" ++ tab ++ endl
          ++ "3" ++ tab ++ "4" ++ tab ++ endl)
         [(0, 0); (0, 1); (1, 0); (1, 1)]).
Proof.
  apply (PrintOnly_main_complete_run
           (fun _ => Some (mkFile true 16
                             (fun _ n => if n =? 1 then [1; 2] else [3; 4])))
           ["convolution"; "m"; "1"; "2"]
           (mkFile true 16 (fun _ n => if n =? 1 then [1; 2] else [3; 4]))
           (mkWorld [] "" [])).
  - unfold accepted. repeat split; vm_compute; congruence.
  - reflexivity.
  - reflexivity.
  - simpl. lia.
  - intros n. simpl. destruct (n =? 1); reflexivity.
Defined.

(** X19. When the arguments pass the check but the matrix file cannot be
    opened, [main] prints the summary line and the error line and ends with
    status 1; no matrix is built and no thread runs. *)
Theorem main_missing_file fs argv w :
  accepted argv -> fs (nth 1 argv "") = None ->
  main fs argv w
  = Exited 1
      (emit w ((endl ++ "file: " ++ nth 1 argv "" ++ " depth: "
                ++ show_int (atoi (nth 2 argv "")) ++ " threads: "
                ++ show_int (atoi (nth 3 argv "")) ++ endl)
               ++ "[ERROR] Could not open file '" ++ nth 1 argv ""
               ++ "'" ++ endl) []).
Proof.
  intros Hacc Hf. unfold main.
  rewrite (bind_returned _ _ w _ w (ProcessArguments_valid argv w Hacc)).
  cbv iota beta.
  rewrite (bind_returned _ _ w tt _ (write_emit _ w)).
  unfold bind at 1. unfold GetMatrixDimension. rewrite Hf.
  now rewrite writes_then_exit, emit_emit.
Qed.

Lemma main_missing_file_witness :
  main (fun _ => None) ["convolution"; "nofile"; "1"; "2"] (mkWorld [] "" [])
  = Exited 1
      (mkWorld []
         (endl ++ "file: nofile depth: 1 threads: 2" ++ endl
          ++ "[ERROR] Could not open file 'nofile'" ++ endl) []).
Proof.
  apply (main_missing_file (fun _ => None)
           ["convolution"; "nofile"; "1"; "2"] (mkWorld [] "" [])).
  - unfold accepted. repeat split; vm_compute; congruence.
  - reflexivity.
Defined.
